(** * sa_academy_api: the GraphQL gateway of src/lib/index.js

    A shallow embedding of the gateway's own code: the backend requester
    ([generalRequest]), the query string builder ([addParams],
    [getRequest]), the schema composer ([mergeSchemas], [mergedTypeDefs]),
    the error normaliser ([formatErr]), the two resolver sets and the
    bearer-token middleware.

    The libraries the file calls (request-promise-native, graphql) are
    parameters of the development; the JavaScript built-ins it relies on
    (template literals, [Array.prototype.join], [for-in], [encodeURI],
    [String.prototype.match]) are written out below over a small universe
    of JavaScript values. *)

From Stdlib Require Import String Ascii List ZArith NArith Bool Lia DecimalString.
Import ListNotations.

Local Open Scope list_scope.
Set Warnings "-register-all".

(** ** JavaScript values *)

Module JS.

(** A JavaScript string is a sequence of 16-bit code units. *)
Definition jstring : Type := list N.

(** String literals of the source, as code units (the literals of the
    source are all ASCII). *)
Definition js (s : string) : jstring :=
  map N_of_ascii (list_ascii_of_string s).

Definition jstring_eqb (a b : jstring) : bool :=
  if list_eq_dec N.eq_dec a b then true else false.

Inductive error_kind : Type := TypeError | URIError | PlainError.

(** The values the gateway handles: primitives, arrays, built-in error
    objects and plain objects.  An object lists its own enumerable
    properties in property enumeration order, then the enumerable
    properties it inherits through its prototype chain.  Numbers are
    integers, of which JavaScript holds the safe ones ([safe_integer])
    exactly.  Function-valued properties of the built-in prototypes are
    outside this universe: the program reads none of them as a value. *)
Inductive value : Type :=
| VUndefined
| VNull
| VBool (b : bool)
| VNum (n : Z)
| VStr (s : jstring)
| VArr (elems : list value)
| VError (kind : error_kind) (message : jstring)
| VObj (own : list (jstring * value)) (inherited : list (jstring * value)).

(** Completion of an evaluation: a value, or a thrown value. *)
Inductive result (A : Type) : Type :=
| Return (a : A)
| Throw (e : value).
Arguments Return {A} a.
Arguments Throw {A} e.

Definition bind {A B} (c : result A) (k : A -> result B) : result B :=
  match c with
  | Return a => k a
  | Throw e => Throw e
  end.

Notation "x <- c ;; k" := (bind c (fun x => k))
  (at level 61, c at next level, right associativity).

(** [ToBoolean]. *)
Definition truthy (v : value) : bool :=
  match v with
  | VUndefined | VNull => false
  | VBool b => b
  | VNum n => negb (Z.eqb n 0)
  | VStr s => match s with [] => false | _ => true end
  | VArr _ | VError _ _ | VObj _ _ => true
  end.

Definition isArray (v : value) : bool :=
  match v with VArr _ => true | _ => false end.

(** The integers a JavaScript number holds exactly and prints digit by
    digit: [Number.isSafeInteger]. *)
Definition safe_integer (n : Z) : bool :=
  (Z.abs n <=? 9007199254740991)%Z.

(** [Number::toString] of a safe integer: its decimal digits.  Outside the
    safe integers the text of a number is the shortest one that reads back
    as the same double, which this definition does not give: the theorems
    that spell out the text of a number assume [safe_integer]. *)
Definition num_to_str (n : Z) : jstring :=
  js (NilZero.string_of_int (Z.to_int n)).

Definition nat_to_str (n : nat) : jstring := num_to_str (Z.of_nat n).

Definition kind_name (k : error_kind) : jstring :=
  match k with
  | TypeError => js "TypeError"
  | URIError => js "URIError"
  | PlainError => js "Error"
  end.

(** [sep]-separated concatenation, the string part of
    [Array.prototype.join]. *)
Fixpoint join_strs (sep : jstring) (l : list jstring) : jstring :=
  match l with
  | [] => []
  | [s] => s
  | s :: rest => s ++ sep ++ join_strs sep rest
  end.

(** [ToString] of a value, as a template literal applies it, on the values
    where the conversion succeeds by the built-in rules (the [printable]
    values below): there it is the text the code gets.  An object that
    carries a [toString] property of its own makes the conversion of the
    code throw a TypeError, and a number outside the safe integers prints
    otherwise: the theorems that spell out the text of arbitrary values
    assume [printable]. *)
Fixpoint toStr (v : value) : jstring :=
  match v with
  | VUndefined => js "undefined"
  | VNull => js "null"
  | VBool true => js "true"
  | VBool false => js "false"
  | VNum n => num_to_str n
  | VStr s => s
  | VArr elems =>
      join_strs (js ",")
        (map (fun e => match e with
                       | VUndefined | VNull => []
                       | _ => toStr e
                       end) elems)
  | VError k m =>
      match m with
      | [] => kind_name k
      | _ => kind_name k ++ js ": " ++ m
      end
  | VObj _ _ => js "[object Object]"
  end.

(** The text [join] uses for one element: empty for undefined and null. *)
Definition elem_str (e : value) : jstring :=
  match e with
  | VUndefined | VNull => []
  | _ => toStr e
  end.

(** [elems.join(sep)]. *)
Definition join (elems : list value) (sep : jstring) : jstring :=
  join_strs sep (map elem_str elems).

Fixpoint lookup (k : jstring) (ps : list (jstring * value)) : option value :=
  match ps with
  | [] => None
  | (k', v) :: rest => if jstring_eqb k k' then Some v else lookup k rest
  end.

Definition has_key (k : jstring) (ps : list (jstring * value)) : bool :=
  match lookup k ps with Some _ => true | None => false end.

(** The values whose [ToString] is [toStr]: every number in them is a safe
    integer, no object in them has a [toString] property (which, not being
    a function here, would make the conversion throw), and the elements of
    an array are such values. *)
Fixpoint printable (v : value) : bool :=
  match v with
  | VNum n => safe_integer n
  | VArr elems => forallb printable elems
  | VObj own inherited =>
      negb (has_key (js "toString") own) &&
      negb (has_key (js "toString") inherited)
  | _ => true
  end.

(** The index a property key denotes in an array-like of length [len]. *)
Definition index_key (k : jstring) (len : nat) : option nat :=
  find (fun i => jstring_eqb (nat_to_str i) k) (seq 0 len).

(** Property read on a receiver that is neither undefined nor null. *)
Definition get_prop (v : value) (k : jstring) : value :=
  match v with
  | VObj own inherited =>
      match lookup k own with
      | Some x => x
      | None =>
          match lookup k inherited with
          | Some x => x
          | None => VUndefined
          end
      end
  | VArr elems =>
      if jstring_eqb k (js "length") then VNum (Z.of_nat (length elems))
      else match index_key k (length elems) with
           | Some i => nth i elems VUndefined
           | None => VUndefined
           end
  | VStr s =>
      if jstring_eqb k (js "length") then VNum (Z.of_nat (length s))
      else match index_key k (length s) with
           | Some i => VStr [nth i s 0%N]
           | None => VUndefined
           end
  | VError kind m =>
      if jstring_eqb k (js "name") then VStr (kind_name kind)
      else if jstring_eqb k (js "message") then VStr m
      else VUndefined
  | _ => VUndefined
  end.

Definition nullish (v : value) : bool :=
  match v with VUndefined | VNull => true | _ => false end.

Definition cannot_read (k : jstring) (v : value) : value :=
  VError TypeError
    (js "Cannot read property '" ++ k ++ js "' of " ++ toStr v).

(** [v[k]] / [v.k]: throws a TypeError on undefined and null. *)
Definition get (v : value) (k : jstring) : result value :=
  if nullish v then Throw (cannot_read k v) else Return (get_prop v k).

(** The keys a [for (k in v)] loop visits, in order; none for undefined,
    null, numbers and booleans. *)
Definition forin_keys (v : value) : list jstring :=
  match v with
  | VObj own inherited =>
      map fst own ++
      filter (fun k => negb (has_key k own)) (map fst inherited)
  | VArr elems => map nat_to_str (seq 0 (length elems))
  | VStr s => map nat_to_str (seq 0 (length s))
  | _ => []
  end.

(** [Object.prototype.hasOwnProperty.call(v, k)]. *)
Definition hasOwnProperty (v : value) (k : jstring) : result bool :=
  match v with
  | VUndefined | VNull =>
      Throw (VError TypeError (js "Cannot convert undefined or null to object"))
  | VObj own _ => Return (has_key k own)
  | VArr elems =>
      Return (jstring_eqb k (js "length") ||
              match index_key k (length elems) with Some _ => true | None => false end)
  | VStr s =>
      Return (jstring_eqb k (js "length") ||
              match index_key k (length s) with Some _ => true | None => false end)
  | VError _ _ =>
      Return (jstring_eqb k (js "message") || jstring_eqb k (js "stack"))
  | VBool _ | VNum _ => Return false
  end.

(** The method call [v.join(sep)]: only arrays have the method. *)
Definition call_join (v : value) (sep : jstring) : result jstring :=
  match v with
  | VArr elems => Return (join elems sep)
  | VUndefined | VNull => Throw (cannot_read (js "join") v)
  | _ => Throw (VError TypeError (js "join is not a function"))
  end.

(** A value that is a string when present and undefined when absent (an
    environment variable, a request header). *)
Definition string_or_undefined (o : option jstring) : value :=
  match o with
  | Some s => VStr s
  | None => VUndefined
  end.

(** A plain object literal: own properties only. *)
Definition obj (props : list (jstring * value)) : value := VObj props [].

End JS.
Import JS.

(** ** Query string builder *)

(** One turn of the [for-in] loop of [addParams]. *)
Definition addParams_step (parameters : value) (queryUrl param : jstring)
  : result jstring :=
  own <- hasOwnProperty parameters param ;;
  if own then
    v <- get parameters param ;;
    if truthy v then
      if isArray v then
        joined <- call_join v (js "&" ++ param ++ js "=") ;;
        Return (queryUrl ++ param ++ js "=" ++ joined ++ js "&")
      else
        Return (queryUrl ++ param ++ js "=" ++ toStr v ++ js "&")
    else Return queryUrl
  else Return queryUrl.

Fixpoint addParams_loop (parameters : value) (queryUrl : jstring)
  (keys : list jstring) : result jstring :=
  match keys with
  | [] => Return queryUrl
  | param :: rest =>
      queryUrl' <- addParams_step parameters queryUrl param ;;
      addParams_loop parameters queryUrl' rest
  end.

Definition addParams (url : jstring) (parameters : value) : result jstring :=
  addParams_loop parameters (url ++ js "?") (forin_keys parameters).

(** ** [encodeURI] *)

Definition isAlnum (c : N) : bool :=
  ((65 <=? c) && (c <=? 90) || (97 <=? c) && (c <=? 122) ||
   (48 <=? c) && (c <=? 57))%N.

(** The code units [encodeURI] leaves as they are: the reserved set, the
    unescaped set (letters, digits, marks) and the number sign. *)
Definition uriUnescaped (c : N) : bool :=
  isAlnum c || existsb (N.eqb c) (js ";/?:@&=+$,-_.!~*'()#").

Definition isHighSurrogate (c : N) : bool := ((55296 <=? c) && (c <=? 56319))%N.
Definition isLowSurrogate (c : N) : bool := ((56320 <=? c) && (c <=? 57343))%N.

Definition utf8 (cp : N) : list N :=
  (if cp <? 128 then [cp]
   else if cp <? 2048 then
     [N.lor 192 (N.shiftr cp 6); N.lor 128 (N.land cp 63)]
   else if cp <? 65536 then
     [N.lor 224 (N.shiftr cp 12);
      N.lor 128 (N.land (N.shiftr cp 6) 63);
      N.lor 128 (N.land cp 63)]
   else
     [N.lor 240 (N.shiftr cp 18);
      N.lor 128 (N.land (N.shiftr cp 12) 63);
      N.lor 128 (N.land (N.shiftr cp 6) 63);
      N.lor 128 (N.land cp 63)])%N.

Definition hexDigit (d : N) : N :=
  (if d <? 10 then 48 + d else 55 + d)%N.

Definition percent (octet : N) : jstring :=
  [37%N; hexDigit (octet / 16); hexDigit (octet mod 16)].

Definition escape (cp : N) : jstring := flat_map percent (utf8 cp).

Definition uriMalformed : value := VError URIError (js "URI malformed").

(** [encodeURI(s)]: an unpaired surrogate throws a URIError. *)
Fixpoint encodeURI (s : jstring) : result jstring :=
  match s with
  | [] => Return []
  | c :: rest =>
      if uriUnescaped c then
        r <- encodeURI rest ;; Return (c :: r)
      else if isLowSurrogate c then Throw uriMalformed
      else if isHighSurrogate c then
        match rest with
        | d :: rest' =>
            if isLowSurrogate d then
              r <- encodeURI rest' ;;
              Return (escape ((c - 55296) * 1024 + (d - 56320) + 65536)%N ++ r)
            else Throw uriMalformed
        | [] => Throw uriMalformed
        end
      else
        r <- encodeURI rest ;; Return (escape c ++ r)
  end.

(** ** Effects: the operational log and the outbound calls *)

(** The options object handed to the request library. *)
Record parameters : Type := {
  method : value;
  uri : jstring;
  body : value;
  json : bool;
  resolveWithFullResponse : value
}.

Inductive event : Type :=
| EvLog (text : jstring)
| EvRequest (p : parameters).

(** A computation: the events it made, in order, and its completion.  For
    an async function the completion is the way its promise settles:
    [Return] fulfilled, [Throw] rejected. *)
Definition Eff (A : Type) : Type := (list event * result A)%type.

Definition ret {A} (a : A) : Eff A := ([], Return a).

Definition lift {A} (r : result A) : Eff A := ([], r).

Definition ebind {A B} (c : Eff A) (k : A -> Eff B) : Eff B :=
  match c with
  | (t, Return a) => let (t', r) := k a in (t ++ t', r)
  | (t, Throw e) => (t, Throw e)
  end.

Notation "x <~ c ;; k" := (ebind c (fun x => k))
  (at level 61, c at next level, right associativity).

(** [try { c } catch (err) { handler err }]. *)
Definition try_catch {A} (c : Eff A) (handler : value -> Eff A) : Eff A :=
  match c with
  | (t, Return a) => (t, Return a)
  | (t, Throw e) => let (t', r) := handler e in (t ++ t', r)
  end.

Definition console_log (text : jstring) : Eff unit := ([EvLog text], Return tt).

Definition trace {A} (c : Eff A) : list event := fst c.
Definition completion {A} (c : Eff A) : result A := snd c.

(** ** Configuration *)

(** The variables read from [process.env]: each a string, or absent. *)
Record Env : Type := {
  COURSES_URL : option jstring;
  COURSES_PORT : option jstring;
  COURSES_ENTRY : option jstring;
  STUDENTS_URL : option jstring;
  STUDENTS_PORT : option jstring;
  STUDENTS_ENTRY : option jstring;
  SHOW_URLS : option jstring
}.

(** ** Backend requester and resolvers *)

Section Gateway.

Variable env : Env.

(** The request library: how the promise of [request(parameters)]
    settles. *)
Variable request : parameters -> result value.

Definition call_request (p : parameters) : Eff value :=
  ([EvRequest p], request p).

Definition generalRequest (url : jstring) (method body fullResponse : value)
  : Eff value :=
  encoded <~ lift (encodeURI url) ;;
  let parameters :=
    {| method := method;
       uri := encoded;
       body := body;
       json := true;
       resolveWithFullResponse := fullResponse |} in
  _ <~ (if truthy (string_or_undefined (SHOW_URLS env)) then console_log url
        else ret tt) ;;
  try_catch (call_request parameters) (fun err => ret err).

Definition getRequest (url path : jstring) (parameters : value) : Eff value :=
  queryUrl <~ lift (addParams (url ++ js "/" ++ path) parameters) ;;
  generalRequest queryUrl (VStr (js "GET")) VUndefined VUndefined.

Definition base_url (host port entryPoint : option jstring) : jstring :=
  js "http://" ++ toStr (string_or_undefined host) ++ js ":" ++
  toStr (string_or_undefined port) ++ js "/" ++
  toStr (string_or_undefined entryPoint).

Definition URL : jstring :=
  base_url (COURSES_URL env) (COURSES_PORT env) (COURSES_ENTRY env).

Definition URL_1 : jstring :=
  base_url (STUDENTS_URL env) (STUDENTS_PORT env) (STUDENTS_ENTRY env).

(** Resolvers take the parent value and the field's argument object; the
    second parameter is destructured. *)

Definition allCourses (_ : value) : Eff value :=
  getRequest URL (js "") VUndefined.

Definition courseByCode (_ args : value) : Eff value :=
  code <~ lift (get args (js "code")) ;;
  generalRequest (URL ++ js "/" ++ toStr code) (VStr (js "GET"))
    VUndefined VUndefined.

Definition createCourse (_ args : value) : Eff value :=
  course <~ lift (get args (js "course")) ;;
  generalRequest URL (VStr (js "POST")) course VUndefined.

Definition updateCourse (_ args : value) : Eff value :=
  code <~ lift (get args (js "code")) ;;
  course <~ lift (get args (js "course")) ;;
  generalRequest (URL ++ js "/" ++ toStr code) (VStr (js "PUT")) course
    VUndefined.

Definition deleteCourse (_ args : value) : Eff value :=
  code <~ lift (get args (js "code")) ;;
  generalRequest (URL ++ js "/" ++ toStr code) (VStr (js "DELETE"))
    VUndefined VUndefined.

Definition allStudents (_ : value) : Eff value :=
  getRequest URL_1 (js "") VUndefined.

Definition studentByCode (_ args : value) : Eff value :=
  code <~ lift (get args (js "code")) ;;
  generalRequest (URL_1 ++ js "/" ++ toStr code) (VStr (js "GET"))
    VUndefined VUndefined.

Definition createStudent (_ args : value) : Eff value :=
  course <~ lift (get args (js "course")) ;;
  generalRequest URL_1 (VStr (js "POST")) course VUndefined.

Definition updateStudent (_ args : value) : Eff value :=
  code <~ lift (get args (js "code")) ;;
  course <~ lift (get args (js "course")) ;;
  generalRequest (URL_1 ++ js "/" ++ toStr code) (VStr (js "PUT")) course
    VUndefined.

Definition deleteStudent (_ args : value) : Eff value :=
  code <~ lift (get args (js "code")) ;;
  generalRequest (URL_1 ++ js "/" ++ toStr code) (VStr (js "DELETE"))
    VUndefined VUndefined.

End Gateway.

(** ** Schema composer *)

Definition newline : jstring := [10%N].

(** A multi-line template literal, line by line. *)
Definition lines (l : list string) : jstring := join_strs newline (map js l).

Definition mergeSchemas (typeDefs queries mutations : value) : result jstring :=
  t <- call_join typeDefs newline ;;
  q <- call_join queries newline ;;
  m <- call_join mutations newline ;;
  Return (t ++ newline ++
          js "    type Query { " ++ q ++ js " }" ++ newline ++
          js "    type Mutation { " ++ m ++ js " }").

(** A call binds the function's parameters to the arguments by position:
    a missing argument is undefined, arguments beyond the last parameter
    are not bound to anything. *)
Definition argument (args : list value) (i : nat) : value :=
  nth i args VUndefined.

Definition mergeSchemas_call (args : list value) : result jstring :=
  mergeSchemas (argument args 0) (argument args 1) (argument args 2).

Definition coursesTypeDef : jstring :=
  lines [ "";
          "type Course {";
          "    code: Int!";
          "    name: String!";
          "    credits: Int!";
          "    professor: String!";
          "}";
          "input CourseInput {";
          "    name: String!";
          "    credits: Int!";
          "    professor: String!";
          "}" ]%string.

Definition coursesQueries : jstring :=
  lines [ "";
          "    allCourses: [Course]!";
          "    courseByCode(code: Int!): Course!";
          "" ]%string.

Definition coursesMutations : jstring :=
  lines [ "";
          "    createCourse(course: CourseInput!): Course!";
          "    deleteCourse(code: Int!): Int";
          "    updateCourse(code: Int!, course: CourseInput!): Course!";
          "" ]%string.

Definition studentsTypeDef : jstring :=
  lines [ "";
          "type Student {";
          "    code: Int!";
          "    username: String!";
          "    password: String!";
          "}";
          "input StudentInput {";
          "    username: String!";
          "    password: String!";
          "}";
          "" ]%string.

Definition studentsQueries : jstring :=
  lines [ "";
          "    allStudents: [Student]!";
          "    studentByCode(code: Int!): Student!";
          "" ]%string.

Definition studentsMutations : jstring :=
  lines [ "";
          "    createStudent(student: StudentInput!): Student!";
          "    deleteStudent(code: Int!): Int";
          "    updateStudent(code: Int!, student: StudentInput!): Student!";
          "" ]%string.

Definition scalarJSON : jstring := js "scalar JSON".

(** The argument arrays of one resource, as the startup call lists them. *)
Definition coursesArgs : list value :=
  [ VArr [VStr scalarJSON; VStr coursesTypeDef];
    VArr [VStr coursesQueries];
    VArr [VStr coursesMutations] ].

Definition studentsArgs : list value :=
  [ VArr [VStr scalarJSON; VStr studentsTypeDef];
    VArr [VStr studentsQueries];
    VArr [VStr studentsMutations] ].

Definition mergedTypeDefs : result jstring :=
  mergeSchemas_call (coursesArgs ++ studentsArgs).

(** Text search, to read the composed schema back. *)
Fixpoint prefixb (p s : jstring) : bool :=
  match p, s with
  | [], _ => true
  | _ :: _, [] => false
  | a :: p', b :: s' => N.eqb a b && prefixb p' s'
  end.

(** Number of positions of [s] at which [p] occurs. *)
Fixpoint occurrences (p s : jstring) : nat :=
  match s with
  | [] => if prefixb p [] then 1 else 0
  | _ :: s' => (if prefixb p s then 1 else 0) + occurrences p s'
  end.

Definition mentions (p s : jstring) : bool :=
  negb (Nat.eqb (occurrences p s) 0).

(** ** Error normaliser *)

Section Normaliser.

(** [graphql.formatError], the engine's default formatting. *)
Variable formatError : value -> result value.

Definition formatErr (error : value) : result value :=
  data <- formatError error ;;
  originalError <- get error (js "originalError") ;;
  structured <-
    (if truthy originalError then
       e <- get originalError (js "error") ;; Return (truthy e)
     else Return false) ;;
  if structured : bool then
    path <- get data (js "path") ;;
    nested <- get originalError (js "error") ;;
    message <- get nested (js "id") ;;
    code <- get nested (js "code") ;;
    description <- get nested (js "description") ;;
    Return (obj [ (js "message", message);
                  (js "code", code);
                  (js "description", description);
                  (js "path", path) ])
  else Return data.

End Normaliser.

(** ** Bearer token middleware *)

(** The longest prefix of [s] whose code units all satisfy [f]: what a
    greedy character class repetition consumes. *)
Fixpoint takeWhile (f : N -> bool) (s : jstring) : jstring :=
  match s with
  | [] => []
  | c :: s' => if f c then c :: takeWhile f s' else []
  end.

Fixpoint strip_prefix (p s : jstring) : option jstring :=
  match p, s with
  | [], _ => Some s
  | _ :: _, [] => None
  | a :: p', b :: s' => if N.eqb a b then strip_prefix p' s' else None
  end.

(** [/Bearer ([A-Za-z0-9]+)/] tried at the start of [s]: the matched text
    and the text of group 1. *)
Definition match_here (s : jstring) : option (jstring * jstring) :=
  match strip_prefix (js "Bearer ") s with
  | Some rest =>
      match takeWhile isAlnum rest with
      | [] => None
      | run => Some (js "Bearer " ++ run, run)
      end
  | None => None
  end.

(** [s.match(/Bearer ([A-Za-z0-9]+)/)]: the leftmost match as the array
    [[matched, group1]], or null. *)
Fixpoint match_Bearer (s : jstring) : value :=
  match match_here s with
  | Some (whole, group1) => VArr [VStr whole; VStr group1]
  | None =>
      match s with
      | [] => VNull
      | _ :: s' => match_Bearer s'
      end
  end.

(** The request context: the Authorization header (a string, or absent)
    and the own properties of [ctx.state]. *)
Record Ctx : Type := {
  authorization : option jstring;
  state : list (jstring * value)
}.

(** [o.k = v] on the own properties of an object. *)
Fixpoint set_own (k : jstring) (v : value) (ps : list (jstring * value))
  : list (jstring * value) :=
  match ps with
  | [] => [(k, v)]
  | (k', v') :: rest =>
      if jstring_eqb k k' then (k, v) :: rest else (k', v') :: set_own k v rest
  end.

(** The token middleware, up to its [await next()]. *)
Definition token_middleware (ctx : Ctx) : Ctx :=
  if truthy (string_or_undefined (authorization ctx)) then
    match authorization ctx with
    | Some header =>
        let token := match_Bearer header in
        if truthy token && truthy (get_prop token (js "1")) then
          {| authorization := authorization ctx;
             state := set_own (js "token") (get_prop token (js "1")) (state ctx) |}
        else ctx
    | None => ctx
    end
  else ctx.

(** The [context] option of the GraphQL endpoint:
    [{ token: ctx.state.token }]. *)
Definition context (ctx : Ctx) : value :=
  obj [ (js "token", get_prop (obj (state ctx)) (js "token")) ].

(** A request as it reaches the middleware: [ctx.state] is a fresh empty
    object. *)
Definition incoming (header : option jstring) : Ctx :=
  {| authorization := header; state := [] |}.

Definition context_token (header : option jstring) : value :=
  get_prop (context (token_middleware (incoming header))) (js "token").

(** * Properties *)

(** ** Strings and property access *)

Lemma jstring_eqb_eq (a b : jstring) : jstring_eqb a b = true <-> a = b.
Proof.
  unfold jstring_eqb. destruct (list_eq_dec N.eq_dec a b); split; congruence.
Qed.

Lemma get_not_nullish (v : value) (k : jstring) :
  nullish v = false -> get v k = Return (get_prop v k).
Proof. unfold get. intros ->. reflexivity. Qed.

Lemma truthy_not_nullish (v : value) : truthy v = true -> nullish v = false.
Proof. destruct v; simpl; congruence. Qed.

Lemma hasOwnProperty_not_nullish (v : value) (k : jstring) :
  nullish v = false -> exists b, hasOwnProperty v k = Return b.
Proof. destruct v; simpl; intros H; try discriminate; eauto. Qed.

Lemma forin_keys_nullish (v : value) : nullish v = true -> forin_keys v = [].
Proof. destruct v; simpl; congruence. Qed.

(** ** Query string builder *)

(** The parameter test of the loop: an own property with a truthy value. *)
Definition included (parameters : value) (param : jstring) : bool :=
  match hasOwnProperty parameters param with
  | Return true => truthy (get_prop parameters param)
  | _ => false
  end.

(** The text one included parameter adds. *)
Definition array_segment (param : jstring) (elems : list value) : jstring :=
  param ++ js "=" ++ join elems (js "&" ++ param ++ js "=") ++ js "&".

Definition segment (parameters : value) (param : jstring) : jstring :=
  match get_prop parameters param with
  | VArr elems => array_segment param elems
  | v => param ++ js "=" ++ toStr v ++ js "&"
  end.

Definition ends_with (suffix s : jstring) : Prop :=
  exists front, s = front ++ suffix.

Lemma addParams_step_eval (parameters : value) (queryUrl param : jstring) :
  nullish parameters = false ->
  addParams_step parameters queryUrl param =
  Return (if included parameters param
          then queryUrl ++ segment parameters param
          else queryUrl).
Proof.
  intros Hn. unfold addParams_step, included, segment.
  destruct (hasOwnProperty_not_nullish parameters param Hn) as [b ->].
  simpl. destruct b; [| reflexivity].
  rewrite (get_not_nullish _ _ Hn). simpl.
  destruct (get_prop parameters param) as [| |b|n|s|elems|k m|own inh];
    simpl; try reflexivity.
  - destruct b; reflexivity.
  - destruct (Z.eqb n 0); reflexivity.
  - destruct s; reflexivity.
Qed.

Lemma addParams_loop_eval (parameters : value) (keys : list jstring) :
  nullish parameters = false ->
  forall queryUrl,
    addParams_loop parameters queryUrl keys =
    Return (queryUrl ++
            flat_map (segment parameters) (filter (included parameters) keys)).
Proof.
  intros Hn. induction keys as [|k keys IH]; intros queryUrl; simpl.
  - now rewrite app_nil_r.
  - rewrite (addParams_step_eval _ _ _ Hn). simpl.
    destruct (included parameters k); rewrite IH; simpl.
    + now rewrite <- app_assoc.
    + reflexivity.
Qed.

Lemma addParams_eval (url : jstring) (parameters : value) :
  addParams url parameters =
  Return (url ++ js "?" ++
          flat_map (segment parameters)
            (filter (included parameters) (forin_keys parameters))).
Proof.
  unfold addParams. destruct (nullish parameters) eqn:Hn.
  - rewrite (forin_keys_nullish _ Hn). reflexivity.
  - rewrite (addParams_loop_eval _ _ Hn). now rewrite <- app_assoc.
Qed.

Lemma segment_ends (parameters : value) (param : jstring) :
  ends_with (js "&") (segment parameters param).
Proof.
  unfold segment, array_segment, ends_with.
  destruct (get_prop parameters param);
    eexists; rewrite !app_assoc; reflexivity.
Qed.

Lemma array_segment_expand (param : jstring) (e : value) (elems : list value) :
  array_segment param (e :: elems) =
  flat_map (fun x => param ++ js "=" ++ elem_str x ++ js "&") (e :: elems).
Proof.
  unfold array_segment, join. revert e.
  induction elems as [|e' elems IH]; intros e.
  - simpl. now rewrite app_nil_r.
  - specialize (IH e'). cbn [flat_map] in IH |- *. rewrite <- IH.
    cbn [map join_strs]. rewrite <- !app_assoc. reflexivity.
Qed.

Lemma segments_end (parameters : value) (keys : list jstring) (front : jstring) :
  ends_with (js "?") front ->
  ends_with (js "?") (front ++ flat_map (segment parameters) keys) \/
  ends_with (js "&") (front ++ flat_map (segment parameters) keys).
Proof.
  revert front. induction keys as [|k keys IH]; intros front Hf; simpl.
  - left. now rewrite app_nil_r.
  - right. destruct keys as [|k' keys].
    + simpl. rewrite app_nil_r.
      destruct (segment_ends parameters k) as [m ->].
      exists (front ++ m). now rewrite app_assoc.
    + remember (k' :: keys) as rest.
      assert (Hne : exists m, flat_map (segment parameters) rest = m ++ js "&").
      { subst rest. clear IH Hf front k.
        revert k'. induction keys as [|k2 keys IH2]; intros k'; simpl.
        - rewrite app_nil_r. apply segment_ends.
        - destruct (IH2 k2) as [m Hm]. simpl in Hm. rewrite Hm.
          exists (segment parameters k' ++ m). now rewrite app_assoc. }
      destruct Hne as [m ->].
      exists (front ++ segment parameters k ++ m).
      now rewrite <- !app_assoc.
Qed.

(** The object of the worked example:
    [{a: ["x", "y"], b: 0, c: null, d: "z"}]. *)
Definition example_parameters : value :=
  obj [ (js "a", VArr [VStr (js "x"); VStr (js "y")]);
        (js "b", VNum 0);
        (js "c", VNull);
        (js "d", VStr (js "z")) ].

(** The values the loop turns into text convert by the built-in rules:
    every enumerated own parameter with a truthy value is [printable]. *)
Definition printable_parameters (parameters : value) : Prop :=
  forall param,
    In param (forin_keys parameters) ->
    included parameters param = true ->
    printable (get_prop parameters param) = true.

(** The claim of C4 on arrays as the specification states it: an array
    adds one [key=value&] per element, in order, and nothing else. *)
Definition expands_per_element (url param : jstring) (elems : list value)
  : Prop :=
  addParams url (obj [(param, VArr elems)]) =
  Return (url ++ js "?" ++
          flat_map (fun x => param ++ js "=" ++ elem_str x ++ js "&") elems).

(** C4, counterexample: an empty array is truthy and has no element, yet
    it adds a segment: [addParams("u", {a: []})] is [u?a=&], not [u?]. *)
Lemma addParams_empty_array_adds_segment :
  addParams (js "u") (obj [(js "a", VArr [])]) = Return (js "u?a=&")
  /\ ~ expands_per_element (js "u") (js "a") [].
Proof.
  split; [reflexivity|].
  unfold expands_per_element. intros H. vm_compute in H. discriminate H.
Qed.

(** C4, amended: a parameter is included exactly when it is an own
    property with a truthy value; when the included values are printable
    (strings, booleans, safe integers, built-in errors, objects without a
    [toString] of their own, arrays of such values), [addParams] returns
    the url, a question mark, then the segment of each included parameter
    in enumeration order, a text that ends in a question mark or an
    ampersand; the segment of a non-empty array is one [key=value&] per
    element in array order and the segment of an empty array is [key=&];
    on the empty object the result is the url and a question mark, and on
    [{a: ["x", "y"], b: 0, c: null, d: "z"}] it is the url followed by
    [?a=x&a=y&d=z&]. *)
Theorem addParams_query_string :
  (forall url parameters,
      printable_parameters parameters ->
      addParams url parameters =
      Return (url ++ js "?" ++
              flat_map (segment parameters)
                (filter (included parameters) (forin_keys parameters))))
  /\ (forall param props inherited,
         included (VObj props inherited) param =
         match lookup param props with
         | Some v => truthy v
         | None => false
         end)
  /\ (forall param e elems,
         array_segment param (e :: elems) =
         flat_map (fun x => param ++ js "=" ++ elem_str x ++ js "&") (e :: elems))
  /\ (forall param, array_segment param [] = param ++ js "=&")
  /\ (forall url parameters,
         printable_parameters parameters ->
         exists q, addParams url parameters = Return q /\
                   (ends_with (js "?") q \/ ends_with (js "&") q))
  /\ (forall url, addParams url (obj []) = Return (url ++ js "?"))
  /\ (forall url,
         addParams url example_parameters =
         Return (url ++ js "?a=x&a=y&d=z&")).
Proof.
  split; [intros url parameters _; apply addParams_eval|].
  split.
  { intros param props inherited. unfold included, has_key. simpl.
    unfold has_key. destruct (lookup param props); reflexivity. }
  split.
  { exact array_segment_expand. }
  split.
  { intros param. reflexivity. }
  split.
  { intros url parameters _. eexists. split; [apply addParams_eval|].
    rewrite app_assoc. apply segments_end. now exists url. }
  split.
  { intros url. rewrite addParams_eval. reflexivity. }
  intros url. rewrite addParams_eval. reflexivity.
Qed.

Lemma addParams_query_string_witness :
  printable_parameters example_parameters /\
  addParams (js "u") example_parameters = Return (js "u?a=x&a=y&d=z&").
Proof.
  assert (Hp : printable_parameters example_parameters).
  { intros param Hin _. cbv in Hin.
    repeat (destruct Hin as [<- | Hin]; [reflexivity|]). contradiction. }
  split; [exact Hp|].
  exact (proj1 addParams_query_string (js "u") example_parameters Hp).
Defined.

(** ** Backend requester *)

Lemma ebind_lift_return {A B} (a : A) (k : A -> Eff B) :
  ebind (lift (Return a)) k = k a.
Proof. unfold ebind, lift. destruct (k a). reflexivity. Qed.

Lemma ebind_lift_throw {A B} (e : value) (k : A -> Eff B) :
  ebind (lift (Throw e)) k = ([], Throw e).
Proof. reflexivity. Qed.

(** What the debug flag adds to the log. *)
Definition url_log (env : Env) (url : jstring) : list event :=
  if truthy (string_or_undefined (SHOW_URLS env)) then [EvLog url] else [].

(** The value a settled request leaves: its result, or its rejection
    reason. *)
Definition settled (r : result value) : value :=
  match r with
  | Return v => v
  | Throw err => err
  end.

Lemma generalRequest_eval (env : Env) (request : parameters -> result value)
  (url : jstring) (method body fullResponse : value) (encoded : jstring) :
  encodeURI url = Return encoded ->
  let p := {| method := method; uri := encoded; body := body; json := true;
              resolveWithFullResponse := fullResponse |} in
  generalRequest env request url method body fullResponse =
  (url_log env url ++ [EvRequest p], Return (settled (request p))).
Proof.
  intros Henc p. unfold generalRequest. rewrite Henc, ebind_lift_return.
  fold p. unfold url_log, call_request, try_catch, ebind, console_log, ret, settled.
  destruct (truthy (string_or_undefined (SHOW_URLS env))); destruct (request p);
    reflexivity.
Qed.

Lemma generalRequest_malformed (env : Env) (request : parameters -> result value)
  (url : jstring) (method body fullResponse e : value) :
  encodeURI url = Throw e ->
  generalRequest env request url method body fullResponse = ([], Throw e).
Proof.
  intros Henc. unfold generalRequest. rewrite Henc. reflexivity.
Qed.

(** For a url that [encodeURI] accepts, every way the request can settle
    is returned as the value of the call. *)
Lemma generalRequest_returns_failures (env : Env)
  (request : parameters -> result value)
  (url : jstring) (method body fullResponse : value) (encoded : jstring) :
  encodeURI url = Return encoded ->
  exists v,
    completion (generalRequest env request url method body fullResponse) =
    Return v.
Proof.
  intros Henc. rewrite (generalRequest_eval _ _ _ _ _ _ _ Henc).
  eexists. reflexivity.
Qed.

Lemma encodeURI_unescaped (s : jstring) :
  forallb uriUnescaped s = true -> encodeURI s = Return s.
Proof.
  induction s as [|c s IH]; simpl; [reflexivity|].
  intros H. apply andb_prop in H. destruct H as [Hc Hs].
  rewrite Hc, (IH Hs). reflexivity.
Qed.

(** A configuration and two backends for the worked examples. *)
Definition sample_env : Env :=
  {| COURSES_URL := Some (js "localhost");
     COURSES_PORT := Some (js "4000");
     COURSES_ENTRY := Some (js "courses");
     STUDENTS_URL := Some (js "localhost");
     STUDENTS_PORT := Some (js "4001");
     STUDENTS_ENTRY := Some (js "students");
     SHOW_URLS := Some (js "1") |}.

(** A backend that answers with the body it was sent. *)
Definition echo_request (p : parameters) : result value := Return (body p).

(** A backend that cannot be reached. *)
Definition refused_request (p : parameters) : result value :=
  Throw (VError PlainError (js "connect ECONNREFUSED")).

Definition GET : value := VStr (js "GET").
Definition POST : value := VStr (js "POST").
Definition PUT : value := VStr (js "PUT").

(** A url that holds an unpaired surrogate is refused by [encodeURI],
    which is evaluated outside the [try] block: the promise of
    [generalRequest] is rejected and no request is made, whatever the
    configuration, the backend and the other arguments. *)
Lemma generalRequest_unpaired_surrogate (env : Env)
  (request : parameters -> result value) (method body fullResponse : value) :
  generalRequest env request [55296%N] method body fullResponse =
  ([], Throw uriMalformed).
Proof.
  apply generalRequest_malformed. reflexivity.
Qed.

(** C3, counterexample: called with the one-unit url [\uD800], the
    requester makes no request and its promise is rejected with a
    URIError. *)
Lemma generalRequest_rejects_unpaired_surrogate :
  generalRequest sample_env refused_request [55296%N] GET VUndefined VUndefined =
  ([], Throw uriMalformed)
  /\ encodeURI [55296%N] = Throw uriMalformed.
Proof.
  split; reflexivity.
Qed.

(** C3, amended: for every url that [encodeURI] accepts, every method and
    every body, the call completes normally: its value is the result of
    the request when the request succeeds and the rejection reason of the
    request (transport failure, status outside 2xx, unreadable response)
    when it fails. *)
Theorem generalRequest_returns_what_request_settles :
  forall env request url method body fullResponse encoded,
    encodeURI url = Return encoded ->
    completion (generalRequest env request url method body fullResponse) =
    Return
      (match request {| method := method; uri := encoded; body := body;
                        json := true;
                        resolveWithFullResponse := fullResponse |} with
       | Return response => response
       | Throw err => err
       end).
Proof.
  intros env request url method body fullResponse encoded Henc.
  rewrite (generalRequest_eval _ _ _ _ _ _ _ Henc). reflexivity.
Qed.

Lemma generalRequest_returns_what_request_settles_witness :
  encodeURI (js "http://localhost:4000/courses/7") =
  Return (js "http://localhost:4000/courses/7")
  /\ completion
       (generalRequest sample_env refused_request
          (js "http://localhost:4000/courses/7") GET VUndefined VUndefined) =
     Return (VError PlainError (js "connect ECONNREFUSED")).
Proof.
  split; [reflexivity|].
  apply (generalRequest_returns_what_request_settles sample_env refused_request
           (js "http://localhost:4000/courses/7") GET VUndefined VUndefined
           (js "http://localhost:4000/courses/7")).
  reflexivity.
Defined.

(** The claim of C8 as the specification states it: what the log holds is
    the uri of the request. *)
Definition logs_encoded_url (run : Eff value) : Prop :=
  forall logged p,
    In (EvLog logged) (trace run) -> In (EvRequest p) (trace run) ->
    logged = uri p.

(** C8, counterexample: with the flag set, a url with a space is logged as
    given while the request uses its percent-encoded form. *)
Lemma generalRequest_logs_unencoded_url :
  trace (generalRequest sample_env echo_request (js "http://h/a b") GET
           VUndefined VUndefined) =
  [ EvLog (js "http://h/a b");
    EvRequest {| method := GET; uri := js "http://h/a%20b";
                 body := VUndefined; json := true;
                 resolveWithFullResponse := VUndefined |} ]
  /\ ~ logs_encoded_url
         (generalRequest sample_env echo_request (js "http://h/a b") GET
            VUndefined VUndefined).
Proof.
  split; [reflexivity|].
  intros H.
  specialize (H (js "http://h/a b")
                {| method := GET; uri := js "http://h/a%20b";
                   body := VUndefined; json := true;
                   resolveWithFullResponse := VUndefined |}).
  assert (Hneq : js "http://h/a b" = js "http://h/a%20b") by
    (apply H; vm_compute; auto).
  discriminate Hneq.
Qed.

(** C8, amended: with the flag set and a url that [encodeURI] accepts, the
    log receives the url as it was passed, before the one request is made;
    the request uses the encoded url, which is the logged text when the url
    holds only characters that [encodeURI] leaves alone. *)
Theorem generalRequest_logs_url_then_requests :
  forall env request url method body fullResponse encoded,
    truthy (string_or_undefined (SHOW_URLS env)) = true ->
    encodeURI url = Return encoded ->
    trace (generalRequest env request url method body fullResponse) =
    [ EvLog url;
      EvRequest {| method := method; uri := encoded; body := body;
                   json := true; resolveWithFullResponse := fullResponse |} ]
    /\ (forallb uriUnescaped url = true -> encoded = url).
Proof.
  intros env request url method body fullResponse encoded Hflag Henc.
  split.
  - rewrite (generalRequest_eval _ _ _ _ _ _ _ Henc).
    unfold trace, url_log. rewrite Hflag. reflexivity.
  - intros Hplain. rewrite (encodeURI_unescaped _ Hplain) in Henc.
    congruence.
Qed.

Lemma generalRequest_logs_url_then_requests_witness :
  trace (generalRequest sample_env refused_request (js "http://h/a b") GET
           VUndefined VUndefined) =
  [ EvLog (js "http://h/a b");
    EvRequest {| method := GET; uri := js "http://h/a%20b";
                 body := VUndefined; json := true;
                 resolveWithFullResponse := VUndefined |} ]
  /\ (forallb uriUnescaped (js "http://h/a b") = true ->
      js "http://h/a%20b" = js "http://h/a b").
Proof.
  apply (generalRequest_logs_url_then_requests sample_env refused_request
           (js "http://h/a b") GET VUndefined VUndefined (js "http://h/a%20b"));
    reflexivity.
Defined.

(** ** Resolvers *)

Lemma getRequest_no_parameters (env : Env) (request : parameters -> result value)
  (url : jstring) :
  getRequest env request url (js "") VUndefined =
  generalRequest env request (url ++ js "/?") GET VUndefined VUndefined.
Proof.
  unfold getRequest. rewrite addParams_eval, ebind_lift_return.
  f_equal. rewrite <- app_assoc. reflexivity.
Qed.

(** C9: with the parameters absent the loop of [addParams] makes no turn
    and returns the path and one question mark; the two list resolvers
    therefore request, with GET and no body, their base url followed by
    [/?]: for the sample configuration one request to
    [http://localhost:4000/courses/?], whose answer the resolver returns. *)
Theorem list_resolvers_request_bare_query :
  (forall url, addParams url VUndefined = Return (url ++ js "?"))
  /\ (forall env request parent,
         allCourses env request parent =
         generalRequest env request (URL env ++ js "/?") GET
           VUndefined VUndefined)
  /\ (forall env request parent,
         allStudents env request parent =
         generalRequest env request (URL_1 env ++ js "/?") GET
           VUndefined VUndefined)
  /\ allCourses sample_env echo_request VUndefined =
     ( [ EvLog (js "http://localhost:4000/courses/?");
         EvRequest {| method := GET;
                      uri := js "http://localhost:4000/courses/?";
                      body := VUndefined; json := true;
                      resolveWithFullResponse := VUndefined |} ],
       Return VUndefined ).
Proof.
  split; [intros url; apply addParams_eval|].
  split; [intros; apply getRequest_no_parameters|].
  split; [intros; apply getRequest_no_parameters|].
  reflexivity.
Qed.

(** The course mutations send the argument the schema names. *)
Lemma createCourse_sends_payload (env : Env)
  (request : parameters -> result value) (parent c : value) :
  createCourse env request parent (obj [(js "course", c)]) =
  generalRequest env request (URL env) POST c VUndefined.
Proof.
  unfold createCourse.
  change (get (obj [(js "course", c)]) (js "course")) with (Return c).
  rewrite ebind_lift_return. reflexivity.
Qed.

Lemma updateCourse_sends_payload (env : Env)
  (request : parameters -> result value) (parent k c : value) :
  updateCourse env request parent (obj [(js "code", k); (js "course", c)]) =
  generalRequest env request (URL env ++ js "/" ++ toStr k) PUT c VUndefined.
Proof.
  unfold updateCourse.
  change (get (obj [(js "code", k); (js "course", c)]) (js "code"))
    with (Return k).
  rewrite ebind_lift_return.
  change (get (obj [(js "code", k); (js "course", c)]) (js "course"))
    with (Return c).
  rewrite ebind_lift_return. reflexivity.
Qed.



(** ** Schema composer *)

(** The text the startup call composes. *)
Definition composed : jstring :=
  match mergedTypeDefs with
  | Return text => text
  | Throw _ => []
  end.

Definition courses_only : jstring :=
  scalarJSON ++ newline ++ coursesTypeDef ++ newline ++
  js "    type Query { " ++ coursesQueries ++ js " }" ++ newline ++
  js "    type Mutation { " ++ coursesMutations ++ js " }".

Definition student_fields : list jstring :=
  [ js "allStudents"; js "studentByCode";
    js "createStudent"; js "updateStudent"; js "deleteStudent" ].

Definition course_fields : list jstring :=
  [ js "allCourses"; js "courseByCode";
    js "createCourse"; js "updateCourse"; js "deleteCourse" ].

(** C1: the startup call passes six arrays to [mergeSchemas], which has
    three parameters: the composed text is the one of the courses alone.
    It declares the five course fields and none of the five student
    fields, nor the word Student at all. *)
Theorem mergedTypeDefs_omits_students :
  mergedTypeDefs = Return courses_only
  /\ forallb (fun f => mentions f composed) course_fields = true
  /\ forallb (fun f => negb (mentions f composed)) student_fields = true
  /\ mentions (js "Student") composed = false.
Proof.
  repeat split; vm_compute; reflexivity.
Qed.





Lemma join_of_strings (l : list jstring) (sep : jstring) :
  join (map VStr l) sep = join_strs sep l.
Proof.
  unfold join. rewrite map_map. cbn [elem_str toStr].
  now rewrite map_id.
Qed.





(** [mergeSchemas] itself joins what it is given: a scalar listed twice in
    its first array is declared twice. *)
Remark mergeSchemas_keeps_repeated_scalar :
  exists text,
    mergeSchemas
      (VArr [VStr scalarJSON; VStr coursesTypeDef;
             VStr scalarJSON; VStr studentsTypeDef])
      (VArr [VStr coursesQueries; VStr studentsQueries])
      (VArr [VStr coursesMutations; VStr studentsMutations]) = Return text
    /\ occurrences scalarJSON text = 2.
Proof. eexists. split; [reflexivity | vm_compute; reflexivity]. Qed.

(** ** Error normaliser *)

Section NormaliserProperties.

Variable formatError : value -> result value.

(** The object the structured branch builds. *)
Definition normalized (nested data : value) : value :=
  obj [ (js "message", get_prop nested (js "id"));
        (js "code", get_prop nested (js "code"));
        (js "description", get_prop nested (js "description"));
        (js "path", get_prop data (js "path")) ].

(** The guard of [formatErr]: a truthy original error with a truthy
    [error] property. *)
Definition wraps_backend_error (error : value) : bool :=
  truthy (get_prop error (js "originalError")) &&
  truthy (get_prop (get_prop error (js "originalError")) (js "error")).

Lemma formatErr_eval (error data : value) :
  nullish error = false ->
  formatError error = Return data ->
  nullish data = false ->
  formatErr formatError error =
  Return (if wraps_backend_error error
          then normalized
                 (get_prop (get_prop error (js "originalError")) (js "error"))
                 data
          else data).
Proof.
  intros He Hd Hdata. unfold formatErr, wraps_backend_error.
  rewrite Hd. cbn [bind]. rewrite (get_not_nullish _ _ He). cbn [bind].
  destruct (truthy (get_prop error (js "originalError"))) eqn:Ho;
    [| reflexivity].
  pose proof (truthy_not_nullish _ Ho) as Hon.
  rewrite (get_not_nullish _ _ Hon). cbn [bind andb].
  destruct (truthy (get_prop (get_prop error (js "originalError")) (js "error")))
    eqn:Hn; [| reflexivity].
  pose proof (truthy_not_nullish _ Hn) as Hnn.
  rewrite (get_not_nullish _ _ Hdata). cbn [bind].
  rewrite !(get_not_nullish _ _ Hnn). reflexivity.
Qed.

End NormaliserProperties.

(** A default formatter of the shape the engine's has: it reports the
    message, the locations and the path of the error it is given, and
    refuses undefined and null. *)
Definition sample_formatError (error : value) : result value :=
  if nullish error then
    Throw (VError PlainError (js "Received null or undefined error."))
  else
    Return (obj [ (js "message",
                   if truthy (get_prop error (js "message"))
                   then get_prop error (js "message")
                   else VStr (js "An unknown error occurred."));
                  (js "locations", get_prop error (js "locations"));
                  (js "path", get_prop error (js "path")) ]).

(** Whether a value is an object with the three fields of a structured
    backend error. *)
Definition has_field (v : value) (k : jstring) : bool :=
  match v with
  | VObj own inherited => has_key k own || has_key k inherited
  | _ => false
  end.

Definition structured_error (nested : value) : bool :=
  truthy nested && has_field nested (js "id") &&
  has_field nested (js "code") && has_field nested (js "description").

(** The claim of C5 as the specification states it. *)
Definition normalizes_as_specified (formatError : value -> result value)
  (error : value) : Prop :=
  let nested := get_prop (get_prop error (js "originalError")) (js "error") in
  if truthy (get_prop error (js "originalError")) && structured_error nested
  then exists data,
      formatError error = Return data /\
      formatErr formatError error = Return (normalized nested data)
  else formatErr formatError error = formatError error.

(** An execution error whose original error carries the backend envelope
    [{error: {id: "E1", code: 404, description: "not found"}}]. *)
Definition structured_failure : value :=
  obj [ (js "message", VStr (js "Request failed"));
        (js "path", VArr [VStr (js "courseByCode")]);
        (js "originalError",
         obj [ (js "error",
                obj [ (js "id", VStr (js "E1"));
                      (js "code", VNum 404);
                      (js "description", VStr (js "not found")) ]) ]) ].

(** An execution error whose original error carries a nested error
    without id, code or description: [{error: {message: "Not Found"}}]. *)
Definition unstructured_failure : value :=
  obj [ (js "message", VStr (js "Request failed"));
        (js "path", VArr [VStr (js "courseByCode")]);
        (js "originalError",
         obj [ (js "error", obj [ (js "message", VStr (js "Not Found")) ]) ]) ].

(** C5, counterexample: the nested error of [unstructured_failure] is
    truthy but has none of the three fields; [formatErr] does not fall back
    to the default formatting, it returns the four-field object with
    message, code and description undefined. *)
Lemma formatErr_unstructured_not_default :
  structured_error
    (get_prop (get_prop unstructured_failure (js "originalError")) (js "error"))
  = false
  /\ formatErr sample_formatError unstructured_failure =
     Return (obj [ (js "message", VUndefined);
                   (js "code", VUndefined);
                   (js "description", VUndefined);
                   (js "path", VArr [VStr (js "courseByCode")]) ])
  /\ sample_formatError unstructured_failure =
     Return (obj [ (js "message", VStr (js "Request failed"));
                   (js "locations", VUndefined);
                   (js "path", VArr [VStr (js "courseByCode")]) ])
  /\ ~ normalizes_as_specified sample_formatError unstructured_failure.
Proof.
  split; [reflexivity|].
  split; [reflexivity|].
  split; [reflexivity|].
  unfold normalizes_as_specified.
  change (truthy (get_prop unstructured_failure (js "originalError")) &&
          structured_error
            (get_prop (get_prop unstructured_failure (js "originalError"))
               (js "error"))) with false.
  cbv iota. intros H. vm_compute in H. discriminate H.
Qed.

(** C5, amended: for an execution error that is an object and that the
    engine formats to an object, [formatErr] returns the four-field object
    exactly when the original error is truthy and has a truthy [error]
    property: message is the nested id, code and description are the
    nested ones (undefined where the nested error lacks them) and path is
    the one of the default formatting; in every other case it returns the
    default formatting unchanged. *)
Theorem formatErr_normalizes :
  forall formatError error data,
    nullish error = false ->
    formatError error = Return data ->
    nullish data = false ->
    formatErr formatError error =
    Return (if wraps_backend_error error
            then obj [ (js "message",
                        get_prop (get_prop (get_prop error (js "originalError"))
                                    (js "error")) (js "id"));
                       (js "code",
                        get_prop (get_prop (get_prop error (js "originalError"))
                                    (js "error")) (js "code"));
                       (js "description",
                        get_prop (get_prop (get_prop error (js "originalError"))
                                    (js "error")) (js "description"));
                       (js "path", get_prop data (js "path")) ]
            else data).
Proof.
  intros formatError error data He Hd Hdata.
  rewrite (formatErr_eval formatError error data He Hd Hdata).
  reflexivity.
Qed.

Lemma formatErr_normalizes_witness :
  formatErr sample_formatError structured_failure =
  Return (obj [ (js "message", VStr (js "E1"));
                (js "code", VNum 404);
                (js "description", VStr (js "not found"));
                (js "path", VArr [VStr (js "courseByCode")]) ]).
Proof.
  exact (formatErr_normalizes sample_formatError structured_failure
           (obj [ (js "message", VStr (js "Request failed"));
                  (js "locations", VUndefined);
                  (js "path", VArr [VStr (js "courseByCode")]) ])
           eq_refl eq_refl eq_refl).
Defined.

(** C7: [formatErr] is a function of its argument alone and it is total on
    what the engine hands it: for every execution error that is an object
    and that the engine's formatter turns into an object, it returns a
    value and does not throw. *)
Theorem formatErr_never_throws :
  forall formatError error,
    nullish error = false ->
    (exists data, formatError error = Return data /\ nullish data = false) ->
    exists normal, formatErr formatError error = Return normal.
Proof.
  intros formatError error He [data [Hd Hdata]].
  rewrite (formatErr_eval formatError error data He Hd Hdata).
  eexists. reflexivity.
Qed.

Lemma formatErr_never_throws_witness :
  exists normal, formatErr sample_formatError unstructured_failure = Return normal.
Proof.
  apply (formatErr_never_throws sample_formatError unstructured_failure).
  - reflexivity.
  - eexists. split; reflexivity.
Defined.

(** ** Bearer token middleware *)

(** [s] begins with the word Bearer, a space and an alphanumeric
    character: a match of the pattern starts here. *)
Definition starts_token (s : jstring) : bool :=
  match strip_prefix (js "Bearer ") s with
  | Some (c :: _) => isAlnum c
  | _ => false
  end.

(** The text after a run: empty, or led by a character outside the
    class. *)
Definition stops_run (rest : jstring) : Prop :=
  match rest with
  | [] => True
  | c :: _ => isAlnum c = false
  end.

Lemma strip_prefix_app (p s rest : jstring) :
  strip_prefix p s = Some rest -> s = p ++ rest.
Proof.
  revert s. induction p as [|a p IH]; intros s H; simpl in *.
  - congruence.
  - destruct s as [|b s]; [discriminate|].
    destruct (N.eqb_spec a b); [|discriminate].
    subst. f_equal. now apply IH.
Qed.

Lemma takeWhile_split (f : N -> bool) (s : jstring) :
  exists rest,
    s = takeWhile f s ++ rest /\
    forallb f (takeWhile f s) = true /\
    match rest with [] => True | c :: _ => f c = false end.
Proof.
  induction s as [|c s [rest [Hs [Hall Hstop]]]]; simpl.
  - exists []. auto.
  - destruct (f c) eqn:Hc.
    + exists rest. simpl. rewrite Hc. repeat split; auto. now f_equal.
    + exists (c :: s). auto.
Qed.

Lemma match_here_none (s : jstring) :
  match_here s = None -> starts_token s = false.
Proof.
  unfold match_here, starts_token.
  destruct (strip_prefix (js "Bearer ") s) as [[|c rest]|]; auto.
  simpl. destruct (isAlnum c); [discriminate | reflexivity].
Qed.

Lemma match_here_some (s whole run : jstring) :
  match_here s = Some (whole, run) ->
  exists rest,
    s = js "Bearer " ++ run ++ rest /\ whole = js "Bearer " ++ run /\
    run <> [] /\ forallb isAlnum run = true /\ stops_run rest.
Proof.
  unfold match_here.
  destruct (strip_prefix (js "Bearer ") s) as [after|] eqn:Hp; [|discriminate].
  apply strip_prefix_app in Hp.
  destruct (takeWhile_split isAlnum after) as [rest [Hs [Hall Hstop]]].
  destruct (takeWhile isAlnum after) as [|c run'] eqn:Ht; [discriminate|].
  intros H. injection H as <- <-.
  exists rest. repeat split; auto; congruence.
Qed.

(** What [match] finds: nothing when no position starts a token, else the
    run after the leftmost position that does. *)
Lemma match_Bearer_leftmost (s : jstring) :
  (match_Bearer s = VNull /\
   forall i, starts_token (skipn i s) = false)
  \/
  (exists pre run rest,
      s = pre ++ js "Bearer " ++ run ++ rest /\
      run <> [] /\ forallb isAlnum run = true /\ stops_run rest /\
      (forall i, i < length pre -> starts_token (skipn i s) = false) /\
      match_Bearer s = VArr [VStr (js "Bearer " ++ run); VStr run]).
Proof.
  induction s as [|c s IH].
  - left. split; [reflexivity|]. intros i. destruct i; reflexivity.
  - cbn [match_Bearer].
    destruct (match_here (c :: s)) as [[whole run]|] eqn:Hm.
    + right. destruct (match_here_some _ _ _ Hm) as [rest [Hs [Hw [Hne [Hall Hstop]]]]].
      exists [], run, rest. subst whole. repeat split; auto.
      intros i Hi. simpl in Hi. lia.
    + apply match_here_none in Hm.
      destruct IH as [[Hnull Hnone] | [pre [run [rest [Hs [Hne [Hall [Hstop [Hfirst Hres]]]]]]]]].
      * left. split; [exact Hnull|]. intros [|i]; [exact Hm | apply Hnone].
      * right. exists (c :: pre), run, rest. repeat split; auto.
        -- simpl. now f_equal.
        -- intros [|i] Hi; [exact Hm|]. apply Hfirst. simpl in Hi. lia.
Qed.

Lemma context_token_null (header : jstring) :
  match_Bearer header = VNull -> context_token (Some header) = VUndefined.
Proof.
  intros H. unfold context_token, token_middleware, incoming.
  cbn [authorization state string_or_undefined]. rewrite H.
  destruct (truthy (VStr header)); reflexivity.
Qed.

Lemma context_token_found (header whole run : jstring) :
  run <> [] ->
  match_Bearer header = VArr [VStr whole; VStr run] ->
  context_token (Some header) = VStr run.
Proof.
  intros Hne H. unfold context_token, token_middleware, incoming.
  cbn [authorization state string_or_undefined].
  destruct header as [|c header]; [discriminate H|].
  rewrite H. destruct run as [|r run]; [congruence|]. reflexivity.
Qed.

(** C10: with the header absent the context token is undefined; with a
    header, either no position of it starts [Bearer ] followed by an
    alphanumeric character and the token is undefined, or the token is the
    non-empty run of alphanumeric characters that follows the leftmost such
    [Bearer ], a run that ends at the end of the header or before a
    character outside the class.  A token with dots is cut at its first
    dot. *)
Theorem context_token_is_leading_alnum_run :
  context_token None = VUndefined
  /\ (forall header,
         ((forall i, starts_token (skipn i header) = false) /\
          context_token (Some header) = VUndefined)
         \/
         (exists pre run rest,
             header = pre ++ js "Bearer " ++ run ++ rest /\
             run <> [] /\ forallb isAlnum run = true /\ stops_run rest /\
             (forall i, i < length pre -> starts_token (skipn i header) = false) /\
             context_token (Some header) = VStr run))
  /\ context_token (Some (js "Bearer eyJhbGci.eyJzdWIi.c2ln")) =
     VStr (js "eyJhbGci")
  /\ context_token (Some (js "Basic dXNlcjpwYXNz")) = VUndefined.
Proof.
  split; [reflexivity|].
  split.
  { intros header.
    destruct (match_Bearer_leftmost header)
      as [[Hnull Hnone] | [pre [run [rest [Hs [Hne [Hall [Hstop [Hfirst Hres]]]]]]]]].
    - left. split; [exact Hnone | now apply context_token_null].
    - right. exists pre, run, rest. repeat split; auto.
      now apply (context_token_found header (js "Bearer " ++ run)). }
  split; reflexivity.
Qed.

(** * Further properties of the code *)

(** ** [encodeURI] *)

(** A string without unpaired surrogates: every high surrogate is followed
    by a low one and no low surrogate stands alone. *)
Fixpoint well_formed (s : jstring) : bool :=
  match s with
  | [] => true
  | c :: rest =>
      if isLowSurrogate c then false
      else if isHighSurrogate c then
        match rest with
        | d :: rest' => isLowSurrogate d && well_formed rest'
        | [] => false
        end
      else well_formed rest
  end.

(** What [encodeURI] may leave in its output: an unescaped character or
    the percent sign. *)
Definition uri_safe (c : N) : Prop := uriUnescaped c = true \/ c = 37%N.

Lemma jstring_pair_ind (P : jstring -> Prop) :
  P [] ->
  (forall c, P [c]) ->
  (forall c d s, P s -> P (d :: s) -> P (c :: d :: s)) ->
  forall s, P s.
Proof.
  intros Hnil Hone Hstep s.
  assert (H : P s /\ forall c, P (c :: s)).
  { induction s as [|d s [IHs IHc]]; [split; auto|].
    split; [apply IHc|]. intros c. apply Hstep; auto. }
  apply H.
Qed.

Lemma isAlnum_spec (c : N) :
  isAlnum c = true <->
  (65 <= c <= 90 \/ 97 <= c <= 122 \/ 48 <= c <= 57)%N.
Proof.
  unfold isAlnum. rewrite !orb_true_iff, !andb_true_iff, !N.leb_le. tauto.
Qed.

Lemma uriUnescaped_ascii (c : N) : uriUnescaped c = true -> (c < 128)%N.
Proof.
  unfold uriUnescaped. rewrite orb_true_iff, isAlnum_spec, existsb_exists.
  intros [H | [x [Hin Hx]]]; [lia|].
  apply N.eqb_eq in Hx. subst x. cbv in Hin.
  repeat (destruct Hin as [<- | Hin]; [lia|]). contradiction.
Qed.

Lemma uriUnescaped_not_surrogate (c : N) :
  uriUnescaped c = true ->
  isLowSurrogate c = false /\ isHighSurrogate c = false.
Proof.
  intros H. apply uriUnescaped_ascii in H.
  unfold isLowSurrogate, isHighSurrogate.
  split; apply andb_false_iff; left; apply N.leb_gt; lia.
Qed.

(** One turn of [encodeURI] on a character it keeps. *)
Lemma encodeURI_keep (c : N) (s : jstring) :
  uriUnescaped c = true ->
  encodeURI (c :: s) = (r <- encodeURI s ;; Return (c :: r)).
Proof. intros H. cbn [encodeURI]. rewrite H. reflexivity. Qed.

(** One turn on a character it escapes that is no surrogate. *)
Lemma encodeURI_escape (c : N) (s : jstring) :
  uriUnescaped c = false -> isLowSurrogate c = false ->
  isHighSurrogate c = false ->
  encodeURI (c :: s) = (r <- encodeURI s ;; Return (escape c ++ r)).
Proof. intros H Hl Hh. cbn [encodeURI]. rewrite H, Hl, Hh. reflexivity. Qed.

(** One turn on a surrogate pair. *)
Lemma encodeURI_pair (c d : N) (s : jstring) :
  isHighSurrogate c = true -> isLowSurrogate d = true ->
  encodeURI (c :: d :: s) =
  (r <- encodeURI s ;;
   Return (escape ((c - 55296) * 1024 + (d - 56320) + 65536)%N ++ r)).
Proof.
  intros Hh Hl. cbn [encodeURI].
  destruct (uriUnescaped c) eqn:Hu.
  - apply uriUnescaped_not_surrogate in Hu. destruct Hu; congruence.
  - assert (Hcl : isLowSurrogate c = false).
    { unfold isHighSurrogate, isLowSurrogate in *.
      apply andb_prop in Hh. destruct Hh as [_ Hle]. apply N.leb_le in Hle.
      apply andb_false_iff. left. apply N.leb_gt. lia. }
    rewrite Hcl, Hh, Hl. reflexivity.
Qed.

(** [encodeURI] fails on exactly the strings that hold an unpaired
    surrogate, and its one failure is the URIError. *)
Lemma encodeURI_well_formed :
  forall s,
    match encodeURI s with
    | Return _ => well_formed s = true
    | Throw e => well_formed s = false /\ e = uriMalformed
    end.
Proof.
  induction s as [| c | c d s IHs IHd] using jstring_pair_ind.
  - reflexivity.
  - cbn [encodeURI well_formed bind].
    destruct (uriUnescaped c) eqn:Hu.
    + destruct (uriUnescaped_not_surrogate c Hu) as [-> ->]. reflexivity.
    + destruct (isLowSurrogate c); [auto|].
      destruct (isHighSurrogate c); auto.
  - destruct (uriUnescaped c) eqn:Hu.
    + rewrite (encodeURI_keep _ _ Hu). cbn [well_formed].
      destruct (uriUnescaped_not_surrogate c Hu) as [-> ->].
      destruct (encodeURI (d :: s)); exact IHd.
    + destruct (isLowSurrogate c) eqn:Hl.
      { cbn [encodeURI well_formed]. rewrite Hu, Hl. auto. }
      destruct (isHighSurrogate c) eqn:Hh.
      * destruct (isLowSurrogate d) eqn:Hd.
        -- rewrite (encodeURI_pair _ _ _ Hh Hd). cbn [well_formed].
           rewrite Hl, Hh, Hd. cbn [andb].
           destruct (encodeURI s); exact IHs.
        -- cbn [encodeURI well_formed]. rewrite Hu, Hl, Hh, Hd. auto.
      * rewrite (encodeURI_escape _ _ Hu Hl Hh). cbn [well_formed].
        rewrite Hl, Hh. destruct (encodeURI (d :: s)); exact IHd.
Qed.

Lemma utf8_nonempty (cp : N) : 1 <= length (utf8 cp).
Proof.
  unfold utf8.
  destruct (cp <? 128)%N; [simpl; lia|].
  destruct (cp <? 2048)%N; [simpl; lia|].
  destruct (cp <? 65536)%N; simpl; lia.
Qed.

Lemma escape_length (cp : N) : 3 <= length (escape cp).
Proof.
  unfold escape. pose proof (utf8_nonempty cp) as H.
  destruct (utf8 cp) as [|o os]; [simpl in H; lia|].
  cbn [flat_map]. rewrite length_app. simpl. lia.
Qed.

Lemma encodeURI_grows_aux (s : jstring) :
  forall u, encodeURI s = Return u ->
            length s <= length u /\
            (u = s -> forallb uriUnescaped s = true).
Proof.
  induction s as [| c | c d s IHs IHd] using jstring_pair_ind; intros u.
  - intros H. injection H as <-. auto.
  - cbn [encodeURI bind].
    destruct (uriUnescaped c) eqn:Hu.
    + intros H. injection H as <-. simpl. rewrite Hu. auto.
    + destruct (isLowSurrogate c); [discriminate|].
      destruct (isHighSurrogate c); [discriminate|].
      intros H. injection H as <-. pose proof (escape_length c) as Hlen.
      rewrite app_nil_r. split; [simpl; lia|].
      intros Heq. rewrite Heq in Hlen. simpl in Hlen. lia.
  - destruct (uriUnescaped c) eqn:Hu.
    + rewrite (encodeURI_keep _ _ Hu).
      destruct (encodeURI (d :: s)) as [r|e] eqn:Hr; [|discriminate].
      intros H. injection H as <-. destruct (IHd r eq_refl) as [Hlen Hfix].
      split; [simpl in *; lia|].
      intros Heq. injection Heq as Heq.
      cbn [forallb]. rewrite Hu. apply Hfix. exact Heq.
    + destruct (isLowSurrogate c) eqn:Hl.
      { cbn [encodeURI]. rewrite Hu, Hl. discriminate. }
      destruct (isHighSurrogate c) eqn:Hh.
      * destruct (isLowSurrogate d) eqn:Hd.
        -- rewrite (encodeURI_pair _ _ _ Hh Hd).
           destruct (encodeURI s) as [r|e] eqn:Hr; [|discriminate].
           intros H. injection H as <-. destruct (IHs r eq_refl) as [Hlen _].
           pose proof (escape_length
                         ((c - 55296) * 1024 + (d - 56320) + 65536)%N) as He.
           assert (Hlong : 2 + length s <
                           length (escape ((c - 55296) * 1024 + (d - 56320)
                                           + 65536)%N ++ r)).
           { rewrite length_app. lia. }
           split; [simpl in *; lia|].
           intros Heq. rewrite Heq in Hlong. simpl in Hlong. lia.
        -- cbn [encodeURI]. rewrite Hu, Hl, Hh, Hd. discriminate.
      * rewrite (encodeURI_escape _ _ Hu Hl Hh).
        destruct (encodeURI (d :: s)) as [r|e] eqn:Hr; [|discriminate].
        intros H. injection H as <-. destruct (IHd r eq_refl) as [Hlen _].
        pose proof (escape_length c) as He.
        assert (Hlong : length (c :: d :: s) < length (escape c ++ r)).
        { rewrite length_app. simpl in *. lia. }
        split; [lia|].
        intros Heq. rewrite Heq in Hlong. lia.
Qed.

(** [encodeURI] never shortens a string, and the strings it returns
    unchanged are exactly those made of characters it does not escape. *)
Lemma encodeURI_grows :
  forall s u,
    encodeURI s = Return u ->
    length s <= length u /\
    (u = s <-> forallb uriUnescaped s = true).
Proof.
  intros s u H. destruct (encodeURI_grows_aux s u H) as [Hlen Hfix].
  split; [exact Hlen|]. split; [exact Hfix|].
  intros Hall. rewrite (encodeURI_unescaped s Hall) in H. congruence.
Qed.

(** The octets of UTF-8 and their two hexadecimal digits. *)

Lemma lor_lt_256 (a b : N) : (a < 256 -> b < 256 -> N.lor a b < 256)%N.
Proof.
  intros Ha Hb.
  destruct (N.eq_dec (N.lor a b) 0) as [Hz|Hnz]; [rewrite Hz; lia|].
  apply (proj2 (N.log2_lt_pow2 (N.lor a b) 8 ltac:(lia))).
  rewrite N.log2_lor. apply N.max_lub_lt.
  - destruct (N.eq_dec a 0) as [->|Hpos]; [cbn; lia|].
    apply (proj1 (N.log2_lt_pow2 a 8 ltac:(lia))). exact Ha.
  - destruct (N.eq_dec b 0) as [->|Hpos]; [cbn; lia|].
    apply (proj1 (N.log2_lt_pow2 b 8 ltac:(lia))). exact Hb.
Qed.

Lemma land_63 (x : N) : (N.land x 63 < 64)%N.
Proof.
  change 63%N with (N.ones 6). rewrite N.land_ones.
  apply N.mod_lt. discriminate.
Qed.

Lemma continuation_octet (x : N) : (N.lor 128 (N.land x 63) < 256)%N.
Proof. apply lor_lt_256; [lia|]. pose proof (land_63 x). lia. Qed.

Lemma utf8_octets (cp : N) :
  (cp < 1114112)%N -> Forall (fun o => (o < 256)%N) (utf8 cp).
Proof.
  intros Hcp. unfold utf8.
  destruct (N.ltb_spec cp 128); [repeat constructor; lia|].
  destruct (N.ltb_spec cp 2048).
  { repeat constructor; [|apply continuation_octet].
    apply lor_lt_256; [lia|]. rewrite N.shiftr_div_pow2.
    change (2 ^ 6)%N with 64%N.
    assert (cp / 64 < 32)%N by (apply N.Div0.div_lt_upper_bound; lia). lia. }
  destruct (N.ltb_spec cp 65536).
  { repeat constructor; try apply continuation_octet.
    apply lor_lt_256; [lia|]. rewrite N.shiftr_div_pow2.
    change (2 ^ 12)%N with 4096%N.
    assert (cp / 4096 < 16)%N by (apply N.Div0.div_lt_upper_bound; lia). lia. }
  repeat constructor; try apply continuation_octet.
  apply lor_lt_256; [lia|]. rewrite N.shiftr_div_pow2.
  change (2 ^ 18)%N with 262144%N.
  assert (cp / 262144 < 5)%N by (apply N.Div0.div_lt_upper_bound; lia). lia.
Qed.

Lemma hexDigit_alnum (d : N) : (d < 16)%N -> isAlnum (hexDigit d) = true.
Proof.
  intros Hd. apply isAlnum_spec. unfold hexDigit.
  destruct (N.ltb_spec d 10); lia.
Qed.

Lemma percent_safe (o : N) : (o < 256)%N -> Forall uri_safe (percent o).
Proof.
  intros Ho. unfold percent.
  apply Forall_cons; [now right|].
  apply Forall_cons; [|apply Forall_cons; [|apply Forall_nil]];
    left; unfold uriUnescaped; rewrite hexDigit_alnum; try reflexivity.
  - apply N.Div0.div_lt_upper_bound. lia.
  - apply N.mod_lt. discriminate.
Qed.

Lemma escape_safe (cp : N) : (cp < 1114112)%N -> Forall uri_safe (escape cp).
Proof.
  intros Hcp. unfold escape. pose proof (utf8_octets cp Hcp) as Hoct.
  induction Hoct as [|o os Ho _ IH]; cbn [flat_map]; [constructor|].
  apply Forall_app. split; [apply percent_safe; exact Ho | exact IH].
Qed.

Lemma surrogate_pair_code_point (c d : N) :
  isHighSurrogate c = true -> isLowSurrogate d = true ->
  ((c - 55296) * 1024 + (d - 56320) + 65536 < 1114112)%N.
Proof.
  unfold isHighSurrogate, isLowSurrogate.
  rewrite !andb_true_iff, !N.leb_le. lia.
Qed.

Lemma encodeURI_safe_aux (s : jstring) :
  forall u,
    Forall (fun c => (c < 65536)%N) s ->
    encodeURI s = Return u -> Forall uri_safe u.
Proof.
  induction s as [| c | c d s IHs IHd] using jstring_pair_ind;
    intros u Hunits.
  - intros H. injection H as <-. constructor.
  - inversion Hunits as [|? ? Hc _]; subst.
    cbn [encodeURI bind]. destruct (uriUnescaped c) eqn:Hu.
    + intros H. injection H as <-. apply Forall_cons; [now left|constructor].
    + destruct (isLowSurrogate c); [discriminate|].
      destruct (isHighSurrogate c); [discriminate|].
      intros H. injection H as <-. rewrite app_nil_r.
      apply escape_safe. lia.
  - inversion Hunits as [|? ? Hc Hrest]; subst.
    inversion Hrest as [|? ? Hd Hs]; subst.
    destruct (uriUnescaped c) eqn:Hu.
    + rewrite (encodeURI_keep _ _ Hu).
      destruct (encodeURI (d :: s)) as [r|e]; [|discriminate].
      intros H. injection H as <-.
      apply Forall_cons; [now left | now apply IHd].
    + destruct (isLowSurrogate c) eqn:Hl.
      { cbn [encodeURI]. rewrite Hu, Hl. discriminate. }
      destruct (isHighSurrogate c) eqn:Hh.
      * destruct (isLowSurrogate d) eqn:Hdl.
        -- rewrite (encodeURI_pair _ _ _ Hh Hdl).
           destruct (encodeURI s) as [r|e]; [|discriminate].
           intros H. injection H as <-. apply Forall_app. split.
           ++ apply escape_safe. now apply surrogate_pair_code_point.
           ++ now apply IHs.
        -- cbn [encodeURI]. rewrite Hu, Hl, Hh, Hdl. discriminate.
      * rewrite (encodeURI_escape _ _ Hu Hl Hh).
        destruct (encodeURI (d :: s)) as [r|e]; [|discriminate].
        intros H. injection H as <-. apply Forall_app. split.
        -- apply escape_safe. lia.
        -- now apply IHd.
Qed.

(** The text [encodeURI] returns for a string of 16-bit code units holds
    only characters of its unescaped set and percent signs: it is plain
    ASCII. *)
Lemma encodeURI_safe :
  forall s u,
    Forall (fun c => (c < 65536)%N) s ->
    encodeURI s = Return u ->
    Forall uri_safe u /\ Forall (fun c => (c < 128)%N) u.
Proof.
  intros s u Hunits Henc.
  pose proof (encodeURI_safe_aux s u Hunits Henc) as Hsafe.
  split; [exact Hsafe|].
  eapply Forall_impl; [|exact Hsafe].
  intros c [Hc | ->]; [now apply uriUnescaped_ascii | lia].
Qed.

Lemma encodeURI_app_return (a : jstring) :
  forall a' b b',
    encodeURI a = Return a' -> encodeURI b = Return b' ->
    encodeURI (a ++ b) = Return (a' ++ b').
Proof.
  induction a as [| c | c d s IHs IHd] using jstring_pair_ind;
    intros a' b b' Ha Hb.
  - injection Ha as <-. exact Hb.
  - cbn [encodeURI bind] in Ha. cbn [app].
    destruct (uriUnescaped c) eqn:Hu.
    + injection Ha as <-. rewrite (encodeURI_keep _ _ Hu), Hb. reflexivity.
    + destruct (isLowSurrogate c) eqn:Hl; [discriminate|].
      destruct (isHighSurrogate c) eqn:Hh; [discriminate|].
      injection Ha as <-.
      rewrite (encodeURI_escape _ _ Hu Hl Hh), Hb. cbn [bind].
      now rewrite app_nil_r.
  - change ((c :: d :: s) ++ b) with (c :: d :: (s ++ b)).
    destruct (uriUnescaped c) eqn:Hu.
    + rewrite (encodeURI_keep _ _ Hu) in Ha. rewrite (encodeURI_keep _ _ Hu).
      destruct (encodeURI (d :: s)) as [r|e] eqn:Hr; [|discriminate].
      injection Ha as <-.
      change (d :: (s ++ b)) with ((d :: s) ++ b).
      rewrite (IHd r b b' eq_refl Hb). reflexivity.
    + destruct (isLowSurrogate c) eqn:Hl.
      { cbn [encodeURI] in Ha. rewrite Hu, Hl in Ha. discriminate. }
      destruct (isHighSurrogate c) eqn:Hh.
      * destruct (isLowSurrogate d) eqn:Hd.
        -- rewrite (encodeURI_pair _ _ _ Hh Hd) in Ha. rewrite (encodeURI_pair _ _ _ Hh Hd).
           destruct (encodeURI s) as [r|e] eqn:Hr; [|discriminate].
           injection Ha as <-.
           rewrite (IHs r b b' eq_refl Hb). cbn [bind].
           now rewrite app_assoc.
        -- cbn [encodeURI] in Ha. rewrite Hu, Hl, Hh, Hd in Ha. discriminate.
      * rewrite (encodeURI_escape _ _ Hu Hl Hh) in Ha. rewrite (encodeURI_escape _ _ Hu Hl Hh).
        destruct (encodeURI (d :: s)) as [r|e] eqn:Hr; [|discriminate].
        injection Ha as <-.
        change (d :: (s ++ b)) with ((d :: s) ++ b).
        rewrite (IHd r b b' eq_refl Hb). cbn [bind].
        now rewrite app_assoc.
Qed.

Lemma encodeURI_app_throw (a : jstring) :
  forall a' b e,
    encodeURI a = Return a' -> encodeURI b = Throw e ->
    encodeURI (a ++ b) = Throw e.
Proof.
  induction a as [| c | c d s IHs IHd] using jstring_pair_ind;
    intros a' b e Ha Hb.
  - exact Hb.
  - cbn [encodeURI bind] in Ha. cbn [app].
    destruct (uriUnescaped c) eqn:Hu.
    + rewrite (encodeURI_keep _ _ Hu), Hb. reflexivity.
    + destruct (isLowSurrogate c) eqn:Hl; [discriminate|].
      destruct (isHighSurrogate c) eqn:Hh; [discriminate|].
      rewrite (encodeURI_escape _ _ Hu Hl Hh), Hb. reflexivity.
  - change ((c :: d :: s) ++ b) with (c :: d :: (s ++ b)).
    destruct (uriUnescaped c) eqn:Hu.
    + rewrite (encodeURI_keep _ _ Hu) in Ha. rewrite (encodeURI_keep _ _ Hu).
      destruct (encodeURI (d :: s)) as [r|e'] eqn:Hr; [|discriminate].
      change (d :: (s ++ b)) with ((d :: s) ++ b).
      rewrite (IHd r b e eq_refl Hb). reflexivity.
    + destruct (isLowSurrogate c) eqn:Hl.
      { cbn [encodeURI] in Ha. rewrite Hu, Hl in Ha. discriminate. }
      destruct (isHighSurrogate c) eqn:Hh.
      * destruct (isLowSurrogate d) eqn:Hd.
        -- rewrite (encodeURI_pair _ _ _ Hh Hd) in Ha. rewrite (encodeURI_pair _ _ _ Hh Hd).
           destruct (encodeURI s) as [r|e'] eqn:Hr; [|discriminate].
           rewrite (IHs r b e eq_refl Hb). reflexivity.
        -- cbn [encodeURI] in Ha. rewrite Hu, Hl, Hh, Hd in Ha. discriminate.
      * rewrite (encodeURI_escape _ _ Hu Hl Hh) in Ha. rewrite (encodeURI_escape _ _ Hu Hl Hh).
        destruct (encodeURI (d :: s)) as [r|e'] eqn:Hr; [|discriminate].
        change (d :: (s ++ b)) with ((d :: s) ++ b).
        rewrite (IHd r b e eq_refl Hb). reflexivity.
Qed.

(** ** Decimal text of the codes *)

Definition isDigit (c : N) : bool := ((48 <=? c) && (c <=? 57))%N.

Definition decimal_char (c : N) : bool := isDigit c || N.eqb c 45.

Lemma string_of_uint_digits (d : Decimal.uint) :
  forallb isDigit (js (NilEmpty.string_of_uint d)) = true.
Proof.
  induction d; cbn [NilEmpty.string_of_uint]; try reflexivity;
    unfold js in *; cbn [list_ascii_of_string map forallb];
    rewrite IHd; reflexivity.
Qed.

Lemma nilzero_uint_digits (d : Decimal.uint) :
  forallb isDigit (js (NilZero.string_of_uint d)) = true.
Proof.
  destruct d; try reflexivity;
    apply (string_of_uint_digits (_ d)).
Qed.

Lemma num_to_str_decimal (n : Z) : forallb decimal_char (num_to_str n) = true.
Proof.
  unfold num_to_str, NilZero.string_of_int.
  assert (Hweaken : forall s, forallb isDigit s = true ->
                              forallb decimal_char s = true).
  { intros s H. rewrite forallb_forall in *. intros c Hc.
    unfold decimal_char. now rewrite (H c Hc). }
  destruct (Z.to_int n) as [d|d].
  - apply Hweaken, nilzero_uint_digits.
  - change (js (String "-"%char (NilZero.string_of_uint d)))
      with (45%N :: js (NilZero.string_of_uint d)).
    cbn [forallb]. rewrite (Hweaken _ (nilzero_uint_digits d)). reflexivity.
Qed.

Lemma decimal_char_unescaped (c : N) :
  decimal_char c = true -> uriUnescaped c = true.
Proof.
  unfold decimal_char, isDigit, uriUnescaped.
  rewrite orb_true_iff, andb_true_iff, !N.leb_le, N.eqb_eq.
  intros [H | ->]; [|reflexivity].
  replace (isAlnum c) with true; [reflexivity|].
  symmetry. apply isAlnum_spec. lia.
Qed.

Lemma num_to_str_unescaped (n : Z) :
  forallb uriUnescaped (num_to_str n) = true.
Proof.
  pose proof (num_to_str_decimal n) as H.
  rewrite forallb_forall in *. intros c Hc.
  apply decimal_char_unescaped, H, Hc.
Qed.

(** ** Backend requester, further *)

(** X5: for a url it can encode, [generalRequest] writes the url to the
    log exactly when SHOW_URLS is set to a non-empty string, whatever the
    string says; with the variable unset or empty its only event is the
    request. *)
Theorem generalRequest_logs_iff_flag_nonempty :
  forall env request url method body fullResponse encoded,
    encodeURI url = Return encoded ->
    (In (EvLog url)
        (trace (generalRequest env request url method body fullResponse)) <->
     exists c s, SHOW_URLS env = Some (c :: s))
    /\ (SHOW_URLS env = None \/ SHOW_URLS env = Some [] ->
        trace (generalRequest env request url method body fullResponse) =
        [ EvRequest {| method := method; uri := encoded; body := body;
                       json := true;
                       resolveWithFullResponse := fullResponse |} ]).
Proof.
  intros env request url method body fullResponse encoded Henc.
  rewrite (generalRequest_eval _ _ _ _ _ _ _ Henc).
  unfold trace, url_log. cbn [fst].
  destruct (SHOW_URLS env) as [[|c s]|]; cbn [string_or_undefined truthy app].
  - split.
    + split; [intros [H|[]]; discriminate H | intros [c [s H]]; discriminate H].
    + reflexivity.
  - split.
    + split; [intros _; eauto | intros _; now left].
    + intros [H|H]; discriminate H.
  - split.
    + split; [intros [H|[]]; discriminate H | intros [c [s H]]; discriminate H].
    + reflexivity.
Qed.

Lemma generalRequest_logs_iff_flag_nonempty_witness :
  (In (EvLog (js "http://h/x"))
      (trace (generalRequest sample_env echo_request (js "http://h/x") GET
                VUndefined VUndefined)) <->
   exists c s, SHOW_URLS sample_env = Some (c :: s))
  /\ (SHOW_URLS sample_env = None \/ SHOW_URLS sample_env = Some [] ->
      trace (generalRequest sample_env echo_request (js "http://h/x") GET
               VUndefined VUndefined) =
      [ EvRequest {| method := GET; uri := js "http://h/x";
                     body := VUndefined; json := true;
                     resolveWithFullResponse := VUndefined |} ]).
Proof.
  apply (generalRequest_logs_iff_flag_nonempty sample_env echo_request
           (js "http://h/x") GET VUndefined VUndefined (js "http://h/x")).
  reflexivity.
Defined.

(** X6: [generalRequest] depends on the request only through the value it
    settles with: a backend that answers with [v] and a backend that fails
    with reason [v] give the caller the same events and the same result. *)
Theorem generalRequest_cannot_tell_failure_from_answer :
  forall env request1 request2 url method body fullResponse,
    (forall p, settled (request1 p) = settled (request2 p)) ->
    generalRequest env request1 url method body fullResponse =
    generalRequest env request2 url method body fullResponse.
Proof.
  intros env request1 request2 url method body fullResponse Hsame.
  destruct (encodeURI url) as [encoded|e] eqn:Henc.
  - rewrite !(generalRequest_eval _ _ _ _ _ _ _ Henc), Hsame. reflexivity.
  - rewrite !(generalRequest_malformed _ _ _ _ _ _ _ Henc). reflexivity.
Qed.

Lemma generalRequest_cannot_tell_failure_from_answer_witness :
  generalRequest sample_env (fun _ => Return (VStr (js "not found")))
    (js "http://h/x") GET VUndefined VUndefined =
  generalRequest sample_env (fun _ => Throw (VStr (js "not found")))
    (js "http://h/x") GET VUndefined VUndefined.
Proof.
  apply (generalRequest_cannot_tell_failure_from_answer sample_env
           (fun _ => Return (VStr (js "not found")))
           (fun _ => Throw (VStr (js "not found")))).
  intros p. reflexivity.
Defined.

(** ** Query string builder, further *)

(** The text a property adds, read off the property itself. *)
Definition pair_segment (kv : jstring * value) : jstring :=
  match snd kv with
  | VArr elems => array_segment (fst kv) elems
  | v => fst kv ++ js "=" ++ toStr v ++ js "&"
  end.

Lemma jstring_eqb_refl (k : jstring) : jstring_eqb k k = true.
Proof. now apply jstring_eqb_eq. Qed.

Lemma lookup_in_nodup (props : list (jstring * value)) (k : jstring) (v : value) :
  NoDup (map fst props) -> In (k, v) props -> lookup k props = Some v.
Proof.
  induction props as [|[k' v'] props IH]; intros Hnd Hin; [contradiction|].
  inversion Hnd as [|? ? Hnotin Hnd']; subst. cbn [lookup].
  destruct Hin as [Heq | Hin].
  - injection Heq as -> ->. now rewrite jstring_eqb_refl.
  - destruct (jstring_eqb k k') eqn:Hk.
    + apply jstring_eqb_eq in Hk. subst k'. exfalso. apply Hnotin.
      change k with (fst (k, v)). now apply in_map.
    + now apply IH.
Qed.

Lemma addParams_pairs (props all : list (jstring * value)) :
  NoDup (map fst all) -> incl props all ->
  flat_map (segment (obj all)) (filter (included (obj all)) (map fst props)) =
  flat_map pair_segment (filter (fun kv => truthy (snd kv)) props).
Proof.
  intros Hnd. induction props as [|[k v] props IH]; intros Hincl;
    [reflexivity|].
  assert (Hlook : lookup k all = Some v).
  { apply lookup_in_nodup; [exact Hnd|]. apply Hincl. now left. }
  assert (Hrest : incl props all).
  { intros x Hx. apply Hincl. now right. }
  cbn [map filter fst snd].
  assert (Hinc : included (obj all) k = truthy v).
  { unfold included, obj, hasOwnProperty, has_key, get_prop.
    now rewrite Hlook. }
  rewrite Hinc. destruct (truthy v); [|now apply IH].
  cbn [flat_map]. rewrite (IH Hrest). f_equal.
  unfold segment, pair_segment, obj, get_prop. rewrite Hlook. reflexivity.
Qed.

(** A key written with digits only: [for-in] visits the keys that are
    integer indices first, in ascending order, wherever the object literal
    places them. *)
Definition integer_like (k : jstring) : bool :=
  match k with
  | [] => false
  | _ => forallb isDigit k
  end.

(** X7: on an object literal whose keys are distinct and none of which is
    written with digits only, and whose values are printable, [addParams]
    returns the url, a question mark and, for each property with a truthy
    value in the order of the literal, the text [key=value&] (for an array
    [key=] and its elements joined by [&key=], then [&]); when no value is
    truthy it returns the url and the question mark. *)
Theorem addParams_plain_object :
  forall url props,
    NoDup (map fst props) ->
    forallb (fun kv => negb (integer_like (fst kv))) props = true ->
    forallb (fun kv => printable (snd kv)) props = true ->
    addParams url (obj props) =
    Return (url ++ js "?" ++
            flat_map pair_segment (filter (fun kv => truthy (snd kv)) props))
    /\ (forallb (fun kv => negb (truthy (snd kv))) props = true ->
        addParams url (obj props) = Return (url ++ js "?")).
Proof.
  intros url props Hnd _ _.
  assert (Heval : addParams url (obj props) =
                  Return (url ++ js "?" ++
                          flat_map pair_segment
                            (filter (fun kv => truthy (snd kv)) props))).
  { rewrite addParams_eval. unfold obj at 3. cbn [forin_keys filter].
    rewrite app_nil_r.
    rewrite (addParams_pairs props props Hnd (incl_refl props)).
    reflexivity. }
  split; [exact Heval|].
  intros Hfalsy. rewrite Heval.
  assert (Hnone : filter (fun kv => truthy (snd kv)) props = []).
  { clear Heval Hnd. induction props as [|kv props IH]; [reflexivity|].
    cbn [forallb] in Hfalsy. apply andb_prop in Hfalsy.
    destruct Hfalsy as [Hkv Hrest]. cbn [filter].
    destruct (truthy (snd kv)); [discriminate|]. now apply IH. }
  rewrite Hnone. cbn [flat_map]. now rewrite app_nil_r.
Qed.

Lemma addParams_plain_object_witness :
  addParams (js "http://h/list")
    (obj [ (js "page", VNum 2); (js "q", VStr []); (js "tag", VArr [VNum 1; VNull]) ]) =
  Return (js "http://h/list?page=2&tag=1&tag=&")
  /\ (forallb (fun kv => negb (truthy (snd kv)))
        [ (js "page", VNum 2); (js "q", VStr []); (js "tag", VArr [VNum 1; VNull]) ]
      = true ->
      addParams (js "http://h/list")
        (obj [ (js "page", VNum 2); (js "q", VStr []);
               (js "tag", VArr [VNum 1; VNull]) ]) =
      Return (js "http://h/list" ++ js "?")).
Proof.
  apply (addParams_plain_object (js "http://h/list")
           [ (js "page", VNum 2); (js "q", VStr []);
             (js "tag", VArr [VNum 1; VNull]) ]).
  - repeat constructor; cbn; intuition discriminate.
  - reflexivity.
  - reflexivity.
Defined.

(** The url [getRequest] builds: the url, a slash, the path and the query
    string. *)
Definition built_url (url path : jstring) (parameters : value) : jstring :=
  url ++ js "/" ++ path ++ js "?" ++
  flat_map (segment parameters)
    (filter (included parameters) (forin_keys parameters)).

(** X8: for parameters whose included values are printable, building the
    query string does not throw and [getRequest] is the call of
    [generalRequest] on the built url with GET and no body; so when the
    built url holds an unpaired surrogate, from the url, the path or a
    parameter, [getRequest] is rejected with the URIError and nothing is
    requested. *)
Theorem getRequest_builds_query :
  forall env request url path parameters,
    printable_parameters parameters ->
    getRequest env request url path parameters =
    generalRequest env request (built_url url path parameters) GET
      VUndefined VUndefined
    /\ (well_formed (built_url url path parameters) = false ->
        getRequest env request url path parameters =
        ([], Throw uriMalformed)).
Proof.
  intros env request url path parameters _.
  assert (Hcall : getRequest env request url path parameters =
                  generalRequest env request (built_url url path parameters)
                    GET VUndefined VUndefined).
  { unfold getRequest, built_url.
    rewrite addParams_eval, ebind_lift_return.
    f_equal. now rewrite <- !app_assoc. }
  split; [exact Hcall|].
  intros Hbad. rewrite Hcall.
  pose proof (encodeURI_well_formed (built_url url path parameters)) as Hwf.
  destruct (encodeURI (built_url url path parameters)) as [encoded|e] eqn:Henc.
  - congruence.
  - destruct Hwf as [_ ->]. now apply generalRequest_malformed.
Qed.

Lemma getRequest_builds_query_witness :
  getRequest sample_env echo_request (js "http://h") (js "search")
    (obj [(js "q", VStr [56832%N])]) =
  generalRequest sample_env echo_request
    (js "http://h/search?q=" ++ [56832%N] ++ js "&") GET VUndefined VUndefined
  /\ (well_formed (js "http://h/search?q=" ++ [56832%N] ++ js "&") = false ->
      getRequest sample_env echo_request (js "http://h") (js "search")
        (obj [(js "q", VStr [56832%N])]) = ([], Throw uriMalformed)).
Proof.
  apply (getRequest_builds_query sample_env echo_request (js "http://h")
           (js "search") (obj [(js "q", VStr [56832%N])])).
  intros param _ _. unfold obj, get_prop.
  destruct (lookup param [(js "q", VStr [56832%N])]) as [v|] eqn:Hl;
    [|reflexivity].
  cbn [lookup] in Hl. destruct (jstring_eqb param (js "q")); [|discriminate].
  injection Hl as <-. reflexivity.
Defined.

(** ** Resolvers, further *)

(** The options of a request without a body. *)
Definition bare_request (method : value) (encoded : jstring) : parameters :=
  {| method := method; uri := encoded; body := VUndefined; json := true;
     resolveWithFullResponse := VUndefined |}.

Definition DELETE : value := VStr (js "DELETE").

Lemma keyed_url_encodes (base encoded : jstring) (k : Z) :
  encodeURI base = Return encoded ->
  encodeURI (base ++ js "/" ++ num_to_str k) =
  Return (encoded ++ js "/" ++ num_to_str k).
Proof.
  intros Hbase. apply encodeURI_app_return; [exact Hbase|].
  apply encodeURI_unescaped.
  change (js "/" ++ num_to_str k) with (47%N :: num_to_str k).
  cbn [forallb]. now rewrite num_to_str_unescaped.
Qed.

Lemma keyed_request_eval (env : Env) (request : parameters -> result value)
  (base encoded : jstring) (method payload : value) (k : Z) :
  encodeURI base = Return encoded ->
  let p := {| method := method; uri := encoded ++ js "/" ++ num_to_str k;
              body := payload; json := true;
              resolveWithFullResponse := VUndefined |} in
  generalRequest env request (base ++ js "/" ++ toStr (VNum k)) method payload
    VUndefined =
  (url_log env (base ++ js "/" ++ num_to_str k) ++ [EvRequest p],
   Return (settled (request p))).
Proof.
  intros Hbase p. cbn [toStr].
  apply generalRequest_eval. now apply keyed_url_encodes.
Qed.

(** X9: with a base url that can be encoded and a code that is a safe
    integer (any GraphQL Int is), the four by-key resolvers never fail: each makes one request without a body,
    with its method, to the encoded base url, a slash and the decimal text
    of the code, and returns what the request settles with. *)
Theorem keyed_resolvers_request_base_slash_code :
  forall env request parent (k : Z) courses students,
    safe_integer k = true ->
    encodeURI (URL env) = Return courses ->
    encodeURI (URL_1 env) = Return students ->
    let args := obj [(js "code", VNum k)] in
    let path := js "/" ++ num_to_str k in
    courseByCode env request parent args =
      (url_log env (URL env ++ path) ++
       [EvRequest (bare_request GET (courses ++ path))],
       Return (settled (request (bare_request GET (courses ++ path)))))
    /\ deleteCourse env request parent args =
      (url_log env (URL env ++ path) ++
       [EvRequest (bare_request DELETE (courses ++ path))],
       Return (settled (request (bare_request DELETE (courses ++ path)))))
    /\ studentByCode env request parent args =
      (url_log env (URL_1 env ++ path) ++
       [EvRequest (bare_request GET (students ++ path))],
       Return (settled (request (bare_request GET (students ++ path)))))
    /\ deleteStudent env request parent args =
      (url_log env (URL_1 env ++ path) ++
       [EvRequest (bare_request DELETE (students ++ path))],
       Return (settled (request (bare_request DELETE (students ++ path))))).
Proof.
  intros env request parent k courses students _ Hc Hs args path.
  assert (Hcode : get args (js "code") = Return (VNum k)) by reflexivity.
  unfold courseByCode, deleteCourse, studentByCode, deleteStudent.
  rewrite Hcode, !ebind_lift_return.
  repeat split.
  - apply (keyed_request_eval env request _ _ GET VUndefined k Hc).
  - apply (keyed_request_eval env request _ _ DELETE VUndefined k Hc).
  - apply (keyed_request_eval env request _ _ GET VUndefined k Hs).
  - apply (keyed_request_eval env request _ _ DELETE VUndefined k Hs).
Qed.

Lemma keyed_resolvers_request_base_slash_code_witness :
  deleteStudent sample_env (fun _ => Return (VNum 1)) VUndefined
    (obj [(js "code", VNum 3)]) =
  ( [ EvLog (js "http://localhost:4001/students/3");
      EvRequest (bare_request DELETE (js "http://localhost:4001/students/3")) ],
    Return (VNum 1) ).
Proof.
  apply (keyed_resolvers_request_base_slash_code sample_env
           (fun _ => Return (VNum 1)) VUndefined 3
           (js "http://localhost:4000/courses")
           (js "http://localhost:4001/students") eq_refl eq_refl eq_refl).
Defined.

(** X10: with a base url that can be encoded and a code that is a safe
    integer (any GraphQL Int is), the course mutations send the [course]
    argument untouched as the body, [createCourse] with POST to the base
    url and [updateCourse] with PUT to the base url, a slash and the
    decimal code, and return what the request settles with. *)
Theorem course_mutations_send_course :
  forall env request parent (k : Z) course courses,
    safe_integer k = true ->
    encodeURI (URL env) = Return courses ->
    let create := {| method := POST; uri := courses; body := course;
                     json := true; resolveWithFullResponse := VUndefined |} in
    let update := {| method := PUT;
                     uri := courses ++ js "/" ++ num_to_str k;
                     body := course; json := true;
                     resolveWithFullResponse := VUndefined |} in
    createCourse env request parent (obj [(js "course", course)]) =
      (url_log env (URL env) ++ [EvRequest create],
       Return (settled (request create)))
    /\ updateCourse env request parent
         (obj [(js "code", VNum k); (js "course", course)]) =
      (url_log env (URL env ++ js "/" ++ num_to_str k) ++ [EvRequest update],
       Return (settled (request update))).
Proof.
  intros env request parent k course courses _ Hc create update.
  split.
  - rewrite createCourse_sends_payload.
    apply generalRequest_eval. exact Hc.
  - rewrite updateCourse_sends_payload.
    apply (keyed_request_eval env request _ _ PUT course k Hc).
Qed.

(** The course of the worked example and the backend that stores it under
    code 7. *)
Definition algorithms : value :=
  obj [ (js "name", VStr (js "Algorithms")); (js "credits", VNum 4);
        (js "professor", VStr (js "Ada")) ].

Definition storing_request (p : parameters) : result value :=
  match body p with
  | VObj own inherited => Return (VObj ((js "code", VNum 7) :: own) inherited)
  | other => Return other
  end.

Lemma course_mutations_send_course_witness :
  completion (createCourse sample_env storing_request VUndefined
                (obj [(js "course", algorithms)])) =
  Return (obj [ (js "code", VNum 7); (js "name", VStr (js "Algorithms"));
                (js "credits", VNum 4); (js "professor", VStr (js "Ada")) ]).
Proof.
  pose proof (course_mutations_send_course sample_env storing_request
                VUndefined 7 algorithms (js "http://localhost:4000/courses")
                eq_refl eq_refl) as H.
  cbv zeta in H. destruct H as [Hcreate _].
  rewrite Hcreate. reflexivity.
Defined.

(** X11: called with an undefined or null argument object, every resolver
    that reads an argument throws a TypeError before any request is made
    or anything is logged. *)
Theorem resolvers_reject_missing_arguments :
  forall env request parent args,
    nullish args = true ->
    Forall (fun resolver =>
              exists message,
                resolver env request parent args =
                ([], Throw (VError TypeError message)))
      [ courseByCode; createCourse; updateCourse; deleteCourse;
        studentByCode; createStudent; updateStudent; deleteStudent ].
Proof.
  intros env request parent args Hnull.
  assert (Hget : forall key, get args key = Throw (cannot_read key args)).
  { intros key. unfold get. now rewrite Hnull. }
  repeat apply Forall_cons; try apply Forall_nil;
    eexists;
    unfold courseByCode, createCourse, updateCourse, deleteCourse,
      studentByCode, createStudent, updateStudent, deleteStudent;
    rewrite Hget; reflexivity.
Qed.

Lemma resolvers_reject_missing_arguments_witness :
  Forall (fun resolver =>
            exists message,
              resolver sample_env echo_request VUndefined VUndefined =
              ([], Throw (VError TypeError message)))
    [ courseByCode; createCourse; updateCourse; deleteCourse;
      studentByCode; createStudent; updateStudent; deleteStudent ].
Proof.
  apply (resolvers_reject_missing_arguments sample_env echo_request
           VUndefined VUndefined).
  reflexivity.
Defined.

(** X12: when the argument object has no [code], own or inherited, the
    by-key resolvers and the update resolvers still make their request, to
    the base url followed by [/undefined]. *)
Theorem resolvers_without_code_request_undefined :
  forall env request parent own inherited,
    lookup (js "code") own = None ->
    lookup (js "code") inherited = None ->
    let args := VObj own inherited in
    courseByCode env request parent args =
      generalRequest env request (URL env ++ js "/undefined") GET
        VUndefined VUndefined
    /\ deleteCourse env request parent args =
      generalRequest env request (URL env ++ js "/undefined") DELETE
        VUndefined VUndefined
    /\ updateCourse env request parent args =
      generalRequest env request (URL env ++ js "/undefined") PUT
        (get_prop args (js "course")) VUndefined
    /\ studentByCode env request parent args =
      generalRequest env request (URL_1 env ++ js "/undefined") GET
        VUndefined VUndefined
    /\ deleteStudent env request parent args =
      generalRequest env request (URL_1 env ++ js "/undefined") DELETE
        VUndefined VUndefined
    /\ updateStudent env request parent args =
      generalRequest env request (URL_1 env ++ js "/undefined") PUT
        (get_prop args (js "course")) VUndefined.
Proof.
  intros env request parent own inherited Hown Hinh args.
  assert (Hcode : get args (js "code") = Return VUndefined).
  { unfold args, get, get_prop. cbn [nullish]. now rewrite Hown, Hinh. }
  assert (Hcourse : get args (js "course") =
                    Return (get_prop args (js "course"))) by reflexivity.
  unfold courseByCode, deleteCourse, updateCourse,
    studentByCode, deleteStudent, updateStudent.
  rewrite Hcode, Hcourse, !ebind_lift_return.
  repeat split.
Qed.

Lemma resolvers_without_code_request_undefined_witness :
  trace (courseByCode sample_env echo_request VUndefined (obj [])) =
  [ EvLog (js "http://localhost:4000/courses/undefined");
    EvRequest (bare_request GET (js "http://localhost:4000/courses/undefined")) ].
Proof.
  pose proof (resolvers_without_code_request_undefined sample_env echo_request
                VUndefined [] [] eq_refl eq_refl) as H.
  cbv zeta in H. destruct H as [Hby _].
  change (obj []) with (VObj [] []). rewrite Hby. reflexivity.
Defined.

(** ** Bearer token middleware, further *)

Lemma lookup_set_own_same (k : jstring) (v : value) (ps : list (jstring * value)) :
  lookup k (set_own k v ps) = Some v.
Proof.
  induction ps as [|[k' v'] ps IH]; cbn [set_own lookup].
  - now rewrite jstring_eqb_refl.
  - destruct (jstring_eqb k k') eqn:Hk; cbn [lookup].
    + now rewrite jstring_eqb_refl.
    + now rewrite Hk.
Qed.

Lemma lookup_set_own_other (k k' : jstring) (v : value)
  (ps : list (jstring * value)) :
  k' <> k -> lookup k' (set_own k v ps) = lookup k' ps.
Proof.
  intros Hne.
  assert (Hk' : jstring_eqb k' k = false).
  { destruct (jstring_eqb k' k) eqn:H; [|reflexivity].
    apply jstring_eqb_eq in H. contradiction. }
  induction ps as [|[k2 v2] ps IH]; cbn [set_own lookup].
  - now rewrite Hk'.
  - destruct (jstring_eqb k k2) eqn:Hk; cbn [lookup].
    + apply jstring_eqb_eq in Hk. subst k2. now rewrite Hk'.
    + now rewrite IH.
Qed.

Lemma set_own_twice (k : jstring) (v : value) (ps : list (jstring * value)) :
  set_own k v (set_own k v ps) = set_own k v ps.
Proof.
  induction ps as [|[k' v'] ps IH]; cbn [set_own].
  - now rewrite jstring_eqb_refl.
  - destruct (jstring_eqb k k') eqn:Hk; cbn [set_own].
    + now rewrite jstring_eqb_refl.
    + now rewrite Hk, IH.
Qed.

(** The middleware either returns the context as it is or stores a string
    under [token]. *)
Lemma token_middleware_cases (ctx : Ctx) :
  token_middleware ctx = ctx \/
  exists run,
    token_middleware ctx =
    {| authorization := authorization ctx;
       state := set_own (js "token") (VStr run) (state ctx) |}
    /\ context_token (authorization ctx) = VStr run.
Proof.
  unfold token_middleware.
  destruct (authorization ctx) as [header|] eqn:Hauth; cbn [string_or_undefined];
    [|left; destruct (truthy VUndefined); reflexivity].
  destruct (truthy (VStr header)); [|now left].
  destruct (match_Bearer_leftmost header)
    as [[Hnull _] | [pre [run [rest [_ [Hne [_ [_ [_ Hres]]]]]]]]].
  - rewrite Hnull. now left.
  - right. exists run. rewrite Hres.
    change (get_prop (VArr [VStr (js "Bearer " ++ run); VStr run]) (js "1"))
      with (VStr run).
    destruct run as [|r run]; [congruence|]. split; [reflexivity|].
    now apply (context_token_found header (js "Bearer " ++ r :: run)).
Qed.

(** X13: the middleware leaves the header and every property of the
    request state other than [token] as they were. *)
Theorem token_middleware_touches_only_token :
  forall ctx key,
    key <> js "token" ->
    authorization (token_middleware ctx) = authorization ctx /\
    lookup key (state (token_middleware ctx)) = lookup key (state ctx).
Proof.
  intros ctx key Hkey.
  destruct (token_middleware_cases ctx) as [-> | [run [-> _]]]; [auto|].
  cbn [authorization state]. split; [reflexivity|].
  now apply lookup_set_own_other.
Qed.

Lemma token_middleware_touches_only_token_witness :
  authorization
    (token_middleware
       {| authorization := Some (js "Bearer abc");
          state := [(js "user", VNum 1)] |}) = Some (js "Bearer abc") /\
  lookup (js "user")
    (state (token_middleware
              {| authorization := Some (js "Bearer abc");
                 state := [(js "user", VNum 1)] |})) =
  lookup (js "user") [(js "user", VNum 1)].
Proof.
  apply (token_middleware_touches_only_token
           {| authorization := Some (js "Bearer abc");
              state := [(js "user", VNum 1)] |} (js "user")).
  discriminate.
Defined.

(** X14: running the middleware a second time changes nothing. *)
Theorem token_middleware_idempotent :
  forall ctx, token_middleware (token_middleware ctx) = token_middleware ctx.
Proof.
  intros ctx.
  destruct (token_middleware_cases ctx) as [Hsame | [run [Hset Htoken]]].
  - now rewrite !Hsame.
  - rewrite Hset.
    destruct (token_middleware_cases
                {| authorization := authorization ctx;
                   state := set_own (js "token") (VStr run) (state ctx) |})
      as [Hsame | [run' [Hset' Htoken']]]; [exact Hsame|].
    rewrite Hset'. cbn [authorization state] in *.
    assert (Hrun : run' = run) by congruence. subst run'.
    now rewrite set_own_twice.
Qed.

Lemma strip_prefix_same (p s : jstring) : strip_prefix p (p ++ s) = Some s.
Proof.
  induction p as [|a p IH]; [reflexivity|].
  cbn [app strip_prefix]. now rewrite N.eqb_refl.
Qed.

Lemma takeWhile_run (f : N -> bool) (run rest : jstring) :
  forallb f run = true ->
  match rest with [] => True | c :: _ => f c = false end ->
  takeWhile f (run ++ rest) = run.
Proof.
  intros Hall Hstop. induction run as [|c run IH].
  - destruct rest as [|c rest]; [reflexivity|].
    cbn [app takeWhile]. now rewrite Hstop.
  - cbn [forallb] in Hall. apply andb_prop in Hall. destruct Hall as [Hc Hrun].
    cbn [app takeWhile]. rewrite Hc. f_equal. now apply IH.
Qed.

Lemma match_here_run (run rest : jstring) :
  run <> [] -> forallb isAlnum run = true -> stops_run rest ->
  match_here (js "Bearer " ++ run ++ rest) = Some (js "Bearer " ++ run, run).
Proof.
  intros Hne Hall Hstop. unfold match_here.
  rewrite strip_prefix_same, (takeWhile_run isAlnum run rest Hall Hstop).
  destruct run; [congruence | reflexivity].
Qed.

(** X15: a header that begins with [Bearer ] and a non-empty alphanumeric
    token, ending there or going on with another character, puts exactly
    that token in the resolver context, replacing any token the request
    state held. *)
Theorem bearer_token_reaches_context :
  forall token rest st,
    token <> [] ->
    forallb isAlnum token = true ->
    stops_run rest ->
    get_prop
      (context
         (token_middleware
            {| authorization := Some (js "Bearer " ++ token ++ rest);
               state := st |}))
      (js "token") = VStr token.
Proof.
  intros token rest st Hne Hall Hstop.
  unfold token_middleware. cbn [authorization state string_or_undefined].
  change (truthy (VStr (js "Bearer " ++ token ++ rest))) with true.
  cbv iota.
  assert (Hmatch : match_Bearer (js "Bearer " ++ token ++ rest) =
                   VArr [VStr (js "Bearer " ++ token); VStr token]).
  { change (js "Bearer " ++ token ++ rest)
      with (66%N :: (js "earer " ++ token ++ rest)) at 1.
    cbn [match_Bearer].
    change (66%N :: (js "earer " ++ token ++ rest))
      with (js "Bearer " ++ token ++ rest).
    now rewrite (match_here_run token rest Hne Hall Hstop). }
  rewrite Hmatch.
  change (get_prop (VArr [VStr (js "Bearer " ++ token); VStr token]) (js "1"))
    with (VStr token).
  destruct token as [|c token]; [congruence|].
  cbn [truthy andb]. unfold context. cbn [state].
  unfold obj at 2. unfold get_prop at 2.
  rewrite lookup_set_own_same. reflexivity.
Qed.

Lemma bearer_token_reaches_context_witness :
  get_prop
    (context
       (token_middleware
          {| authorization := Some (js "Bearer " ++ js "abc123" ++ js ".sig");
             state := [(js "token", VStr (js "stale"))] |}))
    (js "token") = VStr (js "abc123").
Proof.
  apply (bearer_token_reaches_context (js "abc123") (js ".sig")
           [(js "token", VStr (js "stale"))]).
  - discriminate.
  - reflexivity.
  - reflexivity.
Defined.

Lemma skipn_prefix (pre s : jstring) : skipn (length pre) (pre ++ s) = s.
Proof. induction pre as [|c pre IH]; [reflexivity | exact IH]. Qed.

Lemma starts_token_run (run rest : jstring) :
  run <> [] -> forallb isAlnum run = true ->
  starts_token (js "Bearer " ++ run ++ rest) = true.
Proof.
  intros Hne Hall. unfold starts_token. rewrite strip_prefix_same.
  destruct run as [|c run]; [congruence|].
  cbn [forallb] in Hall. apply andb_prop in Hall. apply Hall.
Qed.

(** X16: when the header is absent, or no position of it starts [Bearer ]
    followed by an alphanumeric character, the middleware returns the
    request context unchanged: it never clears a token already in the
    state. *)
Theorem token_middleware_without_match_is_identity :
  forall ctx,
    (authorization ctx = None \/
     exists header,
       authorization ctx = Some header /\
       forall i, starts_token (skipn i header) = false) ->
    token_middleware ctx = ctx.
Proof.
  intros ctx Hno. unfold token_middleware.
  destruct Hno as [-> | [header [-> Hnone]]]; [reflexivity|].
  cbn [string_or_undefined].
  destruct (truthy (VStr header)); [|reflexivity].
  destruct (match_Bearer_leftmost header)
    as [[Hnull _] | [pre [run [rest [Hs [Hne [Hall _]]]]]]].
  - rewrite Hnull. reflexivity.
  - exfalso. specialize (Hnone (length pre)).
    rewrite Hs, skipn_prefix, (starts_token_run run rest Hne Hall) in Hnone.
    discriminate.
Qed.

Lemma token_middleware_without_match_is_identity_witness :
  token_middleware
    {| authorization := None; state := [(js "token", VStr (js "kept"))] |} =
  {| authorization := None; state := [(js "token", VStr (js "kept"))] |}.
Proof.
  apply (token_middleware_without_match_is_identity
           {| authorization := None;
              state := [(js "token", VStr (js "kept"))] |}).
  left. reflexivity.
Defined.

(** ** Schema composer, further *)

Lemma call_join_cases (v : value) (sep : jstring) :
  (exists text, call_join v sep = Return text) \/
  (exists message, call_join v sep = Throw (VError TypeError message)).
Proof.
  destruct v; cbn [call_join]; unfold cannot_read; eauto.
Qed.

Lemma call_join_undefined (sep : jstring) :
  exists message, call_join VUndefined sep = Throw (VError TypeError message).
Proof. cbn [call_join]. unfold cannot_read. eauto. Qed.

(** X17: called with fewer than three arguments, [mergeSchemas] throws a
    TypeError, whatever the arguments given are. *)
Theorem mergeSchemas_needs_three_arguments :
  forall args,
    length args < 3 ->
    exists message,
      mergeSchemas_call args = Throw (VError TypeError message).
Proof.
  intros args Hlen. unfold mergeSchemas_call, mergeSchemas, argument.
  destruct args as [|a [|b [|c rest]]]; cbn [nth]; [| | |simpl in Hlen; lia].
  - destruct (call_join_undefined newline) as [m ->]. eexists; reflexivity.
  - destruct (call_join_cases a newline) as [[t ->] | [m ->]]; [|eexists; reflexivity].
    cbn [bind]. destruct (call_join_undefined newline) as [m ->]. eexists; reflexivity.
  - destruct (call_join_cases a newline) as [[t ->] | [m ->]]; [|eexists; reflexivity].
    cbn [bind].
    destruct (call_join_cases b newline) as [[q ->] | [m ->]]; [|eexists; reflexivity].
    cbn [bind]. destruct (call_join_undefined newline) as [m ->]. eexists; reflexivity.
Qed.

Lemma mergeSchemas_needs_three_arguments_witness :
  exists message,
    mergeSchemas_call
      [VArr [VStr scalarJSON; VStr coursesTypeDef]; VArr [VStr coursesQueries]] =
    Throw (VError TypeError message).
Proof.
  apply (mergeSchemas_needs_three_arguments
           [VArr [VStr scalarJSON; VStr coursesTypeDef];
            VArr [VStr coursesQueries]]).
  simpl. lia.
Defined.

Lemma prefixb_app (p s : jstring) : prefixb p (p ++ s) = true.
Proof.
  induction p as [|a p IH]; [reflexivity|].
  cbn [app prefixb]. now rewrite N.eqb_refl.
Qed.

Lemma occurrences_prefix (p s : jstring) :
  prefixb p s = true -> 1 <= occurrences p s.
Proof.
  intros H. destruct s as [|c s]; cbn [occurrences]; rewrite H; lia.
Qed.

Lemma mentions_inside (p front back : jstring) :
  mentions p (front ++ p ++ back) = true.
Proof.
  assert (H : 1 <= occurrences p (front ++ p ++ back)).
  { induction front as [|c front IH].
    - cbn [app]. apply occurrences_prefix. apply prefixb_app.
    - cbn [app occurrences]. lia. }
  unfold mentions. destruct (occurrences p (front ++ p ++ back));
    [lia | reflexivity].
Qed.

Lemma join_strs_holds (sep f : jstring) (l : list jstring) :
  In f l -> exists front back, join_strs sep l = front ++ f ++ back.
Proof.
  induction l as [|s l IH]; intros Hin; [contradiction|].
  destruct Hin as [-> | Hin].
  - destruct l as [|s' l]; cbn [join_strs].
    + exists [], []. now rewrite app_nil_r.
    + exists [], (sep ++ join_strs sep (s' :: l)). reflexivity.
  - destruct (IH Hin) as [front [back Heq]].
    destruct l as [|s' l]; [contradiction|].
    cbn [join_strs] in *. rewrite Heq.
    exists (s ++ sep ++ front), back. now rewrite <- !app_assoc.
Qed.

Lemma occurrences_app_l (p front s : jstring) :
  occurrences p s <= occurrences p (front ++ s).
Proof.
  induction front as [|c front IH]; [reflexivity|].
  cbn [app occurrences]. lia.
Qed.

Lemma prefixb_app_r (p s back : jstring) :
  prefixb p s = true -> prefixb p (s ++ back) = true.
Proof.
  revert s. induction p as [|a p IH]; intros s H; [reflexivity|].
  destruct s as [|b s]; [discriminate|].
  cbn [app prefixb] in *. apply andb_prop in H. destruct H as [-> H].
  now rewrite (IH s H).
Qed.

Lemma occurrences_app_r (p s back : jstring) :
  occurrences p s <= occurrences p (s ++ back).
Proof.
  induction s as [|c s IH].
  - cbn [app occurrences]. destruct p as [|a p]; cbn [prefixb]; [|lia].
    destruct back; cbn [occurrences prefixb]; lia.
  - cbn [app occurrences].
    destruct (prefixb p (c :: s)) eqn:H.
    + change (c :: s ++ back) with ((c :: s) ++ back).
      rewrite (prefixb_app_r _ _ back H). lia.
    + destruct (prefixb p (c :: s ++ back)); lia.
Qed.

Lemma mentions_app_l (p front s : jstring) :
  mentions p s = true -> mentions p (front ++ s) = true.
Proof.
  unfold mentions. pose proof (occurrences_app_l p front s).
  destruct (occurrences p s); [discriminate|].
  destruct (occurrences p (front ++ s)); [lia | reflexivity].
Qed.

Lemma mentions_app_r (p s back : jstring) :
  mentions p s = true -> mentions p (s ++ back) = true.
Proof.
  unfold mentions. pose proof (occurrences_app_r p s back).
  destruct (occurrences p s); [discriminate|].
  destruct (occurrences p (s ++ back)); [lia | reflexivity].
Qed.

Lemma mentions_joined (sep f : jstring) (l : list jstring) :
  In f l -> mentions f (join_strs sep l) = true.
Proof.
  intros Hin. destruct (join_strs_holds sep f l Hin) as [front [back ->]].
  apply mentions_inside.
Qed.

(** X18: given three arrays of strings, [mergeSchemas] returns a text in
    which every string of the three arrays occurs: what it is given in its
    three parameters is never lost. *)
Theorem mergeSchemas_keeps_every_fragment :
  forall typeDefs queries mutations : list jstring,
    exists text,
      mergeSchemas (VArr (map VStr typeDefs)) (VArr (map VStr queries))
        (VArr (map VStr mutations)) = Return text
      /\ forall fragment,
          In fragment (typeDefs ++ queries ++ mutations) ->
          mentions fragment text = true.
Proof.
  intros typeDefs queries mutations. eexists. split.
  - unfold mergeSchemas. cbn [call_join bind].
    rewrite !join_of_strings. reflexivity.
  - intros fragment Hin. apply in_app_or in Hin.
    destruct Hin as [Hin | Hin];
      [|apply in_app_or in Hin; destruct Hin as [Hin | Hin]].
    + apply mentions_app_r. now apply mentions_joined.
    + do 3 apply mentions_app_l. apply mentions_app_r.
      now apply mentions_joined.
    + do 7 apply mentions_app_l. apply mentions_app_r.
      now apply mentions_joined.
Qed.

(** ** Error normaliser, further *)

Lemma index_key_not_decimal (k : jstring) (len : nat) :
  forallb decimal_char k = false -> index_key k len = None.
Proof.
  intros Hk. unfold index_key.
  destruct (find (fun i => jstring_eqb (nat_to_str i) k) (seq 0 len))
    as [i|] eqn:Hfind; [|reflexivity].
  apply find_some in Hfind. destruct Hfind as [_ Heq].
  apply jstring_eqb_eq in Heq. subst k.
  unfold nat_to_str in Hk. rewrite num_to_str_decimal in Hk. discriminate.
Qed.

(** A thrown value that is not a plain object has no [error] property. *)
Lemma no_error_property (thrown : value) :
  match thrown with VObj _ _ => False | _ => True end ->
  get_prop thrown (js "error") = VUndefined.
Proof.
  destruct thrown as [| |b|n|s|elems|k m|own inh]; intros H;
    try reflexivity; [| |contradiction].
  - cbn [get_prop].
    change (jstring_eqb (js "error") (js "length")) with false. cbv iota.
    now rewrite index_key_not_decimal.
  - cbn [get_prop].
    change (jstring_eqb (js "error") (js "length")) with false. cbv iota.
    now rewrite index_key_not_decimal.
Qed.

(** X19: when the original error of an execution error is absent, or is a
    built-in error object, a string, a number, a boolean or an array (what
    the resolvers themselves can throw), [formatErr] returns the default
    formatting unchanged, whatever that formatting is. *)
Theorem formatErr_defaults_for_thrown_builtins :
  forall formatError error data,
    nullish error = false ->
    formatError error = Return data ->
    match get_prop error (js "originalError") with
    | VObj _ _ => False
    | _ => True
    end ->
    formatErr formatError error = Return data.
Proof.
  intros formatError error data He Hd Hthrown.
  unfold formatErr. rewrite Hd. cbn [bind].
  rewrite (get_not_nullish _ _ He). cbn [bind].
  destruct (truthy (get_prop error (js "originalError"))) eqn:Ho;
    [|reflexivity].
  rewrite (get_not_nullish _ _ (truthy_not_nullish _ Ho)). cbn [bind].
  rewrite (no_error_property _ Hthrown). reflexivity.
Qed.

Lemma formatErr_defaults_for_thrown_builtins_witness :
  formatErr sample_formatError
    (obj [ (js "message", VStr (js "Cannot read property 'code' of undefined"));
           (js "path", VArr [VStr (js "courseByCode")]);
           (js "originalError",
            VError TypeError (js "Cannot read property 'code' of undefined")) ]) =
  Return (obj [ (js "message",
                 VStr (js "Cannot read property 'code' of undefined"));
                (js "locations", VUndefined);
                (js "path", VArr [VStr (js "courseByCode")]) ]).
Proof.
  apply (formatErr_defaults_for_thrown_builtins sample_formatError).
  - reflexivity.
  - reflexivity.
  - exact I.
Defined.

(** ** The uri of the requests *)

(** A request found among the events of a call is the one request of that
    call: its uri is the encoded url and the other options are the
    arguments. *)
Lemma generalRequest_request_inv (env : Env)
  (request : parameters -> result value)
  (url : jstring) (method body fullResponse : value) (p : parameters) :
  In (EvRequest p)
     (trace (generalRequest env request url method body fullResponse)) ->
  encodeURI url = Return (uri p) /\
  p = {| method := method; uri := uri p; body := body; json := true;
         resolveWithFullResponse := fullResponse |}.
Proof.
  destruct (encodeURI url) as [encoded|e] eqn:Henc.
  - rewrite (generalRequest_eval _ _ _ _ _ _ _ Henc).
    unfold trace, url_log. cbn [fst].
    destruct (truthy (string_or_undefined (SHOW_URLS env))); cbn [app In];
      intros H;
      repeat (destruct H as [H|H]; try discriminate H; try contradiction);
      injection H as <-; auto.
  - rewrite (generalRequest_malformed _ _ _ _ _ _ _ Henc). intros [].
Qed.

(** X1: [generalRequest] attempts its request exactly when the url holds
    no unpaired surrogate; for such a url it makes one request and returns
    what the request settles with, and for any other url it logs nothing,
    requests nothing and is rejected with the URIError. *)
Theorem generalRequest_requests_iff_well_formed :
  forall env request url method body fullResponse,
    if well_formed url then
      exists encoded,
        generalRequest env request url method body fullResponse =
        (url_log env url ++
         [EvRequest {| method := method; uri := encoded; body := body;
                       json := true;
                       resolveWithFullResponse := fullResponse |}],
         Return (settled (request
                            {| method := method; uri := encoded; body := body;
                               json := true;
                               resolveWithFullResponse := fullResponse |})))
    else
      generalRequest env request url method body fullResponse =
      ([], Throw uriMalformed).
Proof.
  intros env request url method body fullResponse.
  pose proof (encodeURI_well_formed url) as Hwf.
  destruct (encodeURI url) as [encoded|e] eqn:Henc.
  - rewrite Hwf. exists encoded. now apply generalRequest_eval.
  - destruct Hwf as [-> ->]. now apply generalRequest_malformed.
Qed.

(** X2: the uri of a request is never shorter than the url it was made
    for, and it is that url, the text the debug log shows, exactly when
    the url holds only characters that are not escaped. *)
Theorem request_uri_is_url_iff_unescaped :
  forall env request url method body fullResponse p,
    In (EvRequest p)
       (trace (generalRequest env request url method body fullResponse)) ->
    length url <= length (uri p) /\
    (uri p = url <-> forallb uriUnescaped url = true).
Proof.
  intros env request url method body fullResponse p Hin.
  apply generalRequest_request_inv in Hin. destruct Hin as [Henc _].
  exact (encodeURI_grows url (uri p) Henc).
Qed.

Lemma request_uri_is_url_iff_unescaped_witness :
  length (js "http://h/a b") <= length (js "http://h/a%20b") /\
  (js "http://h/a%20b" = js "http://h/a b" <->
   forallb uriUnescaped (js "http://h/a b") = true).
Proof.
  apply (request_uri_is_url_iff_unescaped sample_env echo_request
           (js "http://h/a b") GET VUndefined VUndefined
           (bare_request GET (js "http://h/a%20b"))).
  right. left. reflexivity.
Defined.

(** X3: for a url of 16-bit code units, the uri of a request holds only
    characters of the unescaped set and percent signs: whatever the url,
    what goes out is plain ASCII. *)
Theorem request_uri_is_ascii :
  forall env request url method body fullResponse p,
    Forall (fun c => (c < 65536)%N) url ->
    In (EvRequest p)
       (trace (generalRequest env request url method body fullResponse)) ->
    Forall uri_safe (uri p) /\ Forall (fun c => (c < 128)%N) (uri p).
Proof.
  intros env request url method body fullResponse p Hunits Hin.
  apply generalRequest_request_inv in Hin. destruct Hin as [Henc _].
  exact (encodeURI_safe url (uri p) Hunits Henc).
Qed.

Lemma request_uri_is_ascii_witness :
  Forall uri_safe (js "http://h/%C3%A9%F0%9F%98%80") /\
  Forall (fun c => (c < 128)%N) (js "http://h/%C3%A9%F0%9F%98%80").
Proof.
  apply (request_uri_is_ascii sample_env echo_request
           (js "http://h/" ++ [233%N; 55357%N; 56832%N]) GET VUndefined
           VUndefined (bare_request GET (js "http://h/%C3%A9%F0%9F%98%80"))).
  - repeat constructor.
  - right. left. reflexivity.
Defined.

(** X4: behind a base url that can be encoded, the rest of the url is
    encoded on its own: the request for [base ++ rest] goes to the encoded
    base followed by the encoded rest, and the call is rejected with the
    error of the rest when the rest cannot be encoded. *)
Theorem generalRequest_encodes_base_and_rest :
  forall env request base rest method body fullResponse encoded,
    encodeURI base = Return encoded ->
    generalRequest env request (base ++ rest) method body fullResponse =
    match encodeURI rest with
    | Return rest' =>
        (url_log env (base ++ rest) ++
         [EvRequest {| method := method; uri := encoded ++ rest';
                       body := body; json := true;
                       resolveWithFullResponse := fullResponse |}],
         Return (settled (request
                            {| method := method; uri := encoded ++ rest';
                               body := body; json := true;
                               resolveWithFullResponse := fullResponse |})))
    | Throw e => ([], Throw e)
    end.
Proof.
  intros env request base rest method body fullResponse encoded Hbase.
  destruct (encodeURI rest) as [rest'|e] eqn:Hrest.
  - apply generalRequest_eval. now apply encodeURI_app_return.
  - apply generalRequest_malformed.
    now apply (encodeURI_app_throw base encoded).
Qed.

Lemma generalRequest_encodes_base_and_rest_witness :
  generalRequest sample_env echo_request
    (js "http://localhost:4000/courses" ++ js "/a b") GET VUndefined VUndefined =
  match encodeURI (js "/a b") with
  | Return rest' =>
      (url_log sample_env (js "http://localhost:4000/courses" ++ js "/a b") ++
       [EvRequest {| method := GET;
                     uri := js "http://localhost:4000/courses" ++ rest';
                     body := VUndefined; json := true;
                     resolveWithFullResponse := VUndefined |}],
       Return (settled (echo_request
                          {| method := GET;
                             uri := js "http://localhost:4000/courses" ++ rest';
                             body := VUndefined; json := true;
                             resolveWithFullResponse := VUndefined |})))
  | Throw e => ([], Throw e)
  end.
Proof.
  apply (generalRequest_encodes_base_and_rest sample_env echo_request
           (js "http://localhost:4000/courses") (js "/a b") GET VUndefined
           VUndefined (js "http://localhost:4000/courses")).
  reflexivity.
Defined.
